(** * Memory Match Game: the [useGameLogic] hook

    A shallow embedding of the state machine implemented by the React hook
    [useGameLogic] (hooks/useGameLogic.js): the game state record, the state
    updaters handed to [setGameState], the two effects with their dependency
    arrays, the click and restart handlers and the flip-back timer.

    React is modelled as it behaves for this hook:
    - every [setGameState] call enqueues an update; the queued updates of one
      handler (or of one flush of effects) are applied in order and the
      component renders once;
    - after a render, an effect runs when one of its dependencies differs
      from the previous render ([Object.is]): numbers and strings by value,
      arrays by identity.  An array of the state has a new identity exactly
      when an applied updater stored a freshly built array in that field
      ([map], a spread [[...xs, x]] and the literal [[]] always build a new
      array, whereas [...prev] copies the old reference);
    - effects run in declaration order, their updates are batched into the
      next render, and rendering repeats until no update is queued;
    - [setTimeout] callbacks with the same delay fire in the order in which
      they were scheduled; nothing in the hook ever calls [clearTimeout]. *)

From Stdlib Require Import String List Bool Arith Lia Permutation.
From Stdlib Require Import ZArith DecimalString.
Import ListNotations.

(** ** Data model *)

Definition Id := string.
Definition Flavour := string.

(** [{ id, flavour, isFlipped, isMatched }] *)
Record Card : Type := mkCard {
  id : Id;
  flavour : Flavour;
  isFlipped : bool;
  isMatched : bool
}.

(** ['playing' | 'won' | 'lost'] *)
Inductive GameStatus : Type := playing | won | lost.

Definition GameStatus_eqb (a b : GameStatus) : bool :=
  match a, b with
  | playing, playing | won, won | lost, lost => true
  | _, _ => false
  end.

(** The value held by [useState]. *)
Record GameState : Type := mkGameState {
  cards : list Card;
  selectedCards : list Id;
  attempts : nat;
  gameStatus : GameStatus;
  isChecking : bool
}.

(** A JavaScript call either returns or throws a [TypeError] (reading a
    property of [undefined]). *)
Inductive Result (A : Type) : Type :=
| Return (a : A)
| TypeError.
Arguments Return {A} a.
Arguments TypeError {A}.

(** Modelled from the spec: [MAX_ATTEMPTS] of utils/constants.js, which is
    not part of the sources; the spec fixes the attempt budget to 15. *)
Definition MAX_ATTEMPTS : nat := 15.

(** [cards.find((card) => card.id === cardId)] *)
Definition findCard (cardId : Id) (cs : list Card) : option Card :=
  find (fun card => String.eqb (id card) cardId) cs.

(** [{ ...card, isFlipped: b }] and [{ ...card, isMatched: b }] *)
Definition withFlipped (b : bool) (card : Card) : Card :=
  {| id := id card; flavour := flavour card;
     isFlipped := b; isMatched := isMatched card |}.

Definition withMatched (b : bool) (card : Card) : Card :=
  {| id := id card; flavour := flavour card;
     isFlipped := isFlipped card; isMatched := b |}.

(** The per-card functions of the three [map] calls:
    [(card) => card.id === cardId ? { ...card, isFlipped: true } : card] and
    [(card) => card.id === firstCardId || card.id === secondCardId
               ? { ...card, isMatched: true } : card], likewise with
    [isFlipped: false]. *)
Definition flipOne (cardId : Id) (card : Card) : Card :=
  if String.eqb (id card) cardId then withFlipped true card else card.

Definition matchTwo (firstCardId secondCardId : Id) (card : Card) : Card :=
  if String.eqb (id card) firstCardId || String.eqb (id card) secondCardId
  then withMatched true card else card.

Definition unflipTwo (firstCardId secondCardId : Id) (card : Card) : Card :=
  if String.eqb (id card) firstCardId || String.eqb (id card) secondCardId
  then withFlipped false card else card.

(** ** State updates

    One constructor per argument that the hook passes to [setGameState]. *)
Inductive Update : Type :=
| FlipCard (cardId : Id)                       (* flipCard *)
| BeginCheck                                   (* checkForMatch, first update *)
| MarkMatched (firstCardId secondCardId : Id)  (* checkForMatch, match found *)
| FlipBack (firstCardId secondCardId : Id)     (* checkForMatch, timer body *)
| SetStatus (s : GameStatus)                   (* end-condition effect *)
| Replace (next : GameState).                  (* restartGame *)

Definition applyUpdate (u : Update) (prev : GameState) : GameState :=
  match u with
  | FlipCard cardId =>
      {| cards := map (flipOne cardId) (cards prev);
         selectedCards := selectedCards prev ++ [cardId];
         attempts := attempts prev;
         gameStatus := gameStatus prev;
         isChecking := isChecking prev |}
  | BeginCheck =>
      {| cards := cards prev;
         selectedCards := selectedCards prev;
         attempts := attempts prev + 1;
         gameStatus := gameStatus prev;
         isChecking := true |}
  | MarkMatched firstCardId secondCardId =>
      {| cards := map (matchTwo firstCardId secondCardId) (cards prev);
         selectedCards := [];
         attempts := attempts prev;
         gameStatus := gameStatus prev;
         isChecking := false |}
  | FlipBack firstCardId secondCardId =>
      {| cards := map (unflipTwo firstCardId secondCardId) (cards prev);
         selectedCards := [];
         attempts := attempts prev;
         gameStatus := gameStatus prev;
         isChecking := false |}
  | SetStatus s =>
      {| cards := cards prev;
         selectedCards := selectedCards prev;
         attempts := attempts prev;
         gameStatus := s;
         isChecking := isChecking prev |}
  | Replace next => next
  end.

(** Whether the updater stores a freshly built array in [cards], resp. in
    [selectedCards]. *)
Definition newCards (u : Update) : bool :=
  match u with
  | FlipCard _ | MarkMatched _ _ | FlipBack _ _ | Replace _ => true
  | BeginCheck | SetStatus _ => false
  end.

Definition newSelectedCards (u : Update) : bool :=
  match u with
  | FlipCard _ | MarkMatched _ _ | FlipBack _ _ | Replace _ => true
  | BeginCheck | SetStatus _ => false
  end.

Definition applyQueue (queue : list Update) (prev : GameState) : GameState :=
  fold_left (fun s u => applyUpdate u s) queue prev.

(** A scheduled [setTimeout] callback: the two identifiers it captured. *)
Definition Timer : Type := (Id * Id)%type.

(** ** checkForMatch and the two effects *)

(** The updates [checkForMatch] enqueues and the timer it schedules.
    [const [firstCardId, secondCardId] = gameState.selectedCards] leaves a
    missing element [undefined], which is the identifier of no card, and
    reading [.flavour] of a card that was not found throws. *)
Definition checkForMatch (gs : GameState) : Result (list Update * list Timer) :=
  match selectedCards gs with
  | firstCardId :: secondCardId :: _ =>
      match findCard firstCardId (cards gs),
            findCard secondCardId (cards gs) with
      | Some firstCard, Some secondCard =>
          if String.eqb (flavour firstCard) (flavour secondCard)
          then Return ([BeginCheck; MarkMatched firstCardId secondCardId], [])
          else Return ([BeginCheck], [(firstCardId, secondCardId)])
      | _, _ => TypeError
      end
  | _ => TypeError
  end.

(** "Check for game end conditions" *)
Definition endConditionEffect (gs : GameState) : list Update :=
  match gameStatus gs with
  | playing =>
      let allMatched := forallb isMatched (cards gs) in
      let outOfAttempts := MAX_ATTEMPTS <=? attempts gs in
      if allMatched then [SetStatus won]
      else if outOfAttempts then [SetStatus lost]
      else []
  | _ => []
  end.

(** "Check for matches when two cards are selected" *)
Definition matchEffect (gs : GameState) : Result (list Update * list Timer) :=
  if List.length (selectedCards gs) =? 2 then checkForMatch gs else Return ([], []).

(** ** flipCard and handleCardClick *)

(** [flipCard(cardId)] enqueues one update. *)
Definition flipCard (cardId : Id) : list Update := [FlipCard cardId].

Definition handleCardClick (gs : GameState) (cardId : Id) : Result (list Update) :=
  if isChecking gs
     || (2 <=? List.length (selectedCards gs))
     || negb (GameStatus_eqb (gameStatus gs) playing)
  then Return []
  else match findCard cardId (cards gs) with
       | None => TypeError
       | Some card =>
           if isFlipped card || isMatched card then Return []
           else Return (flipCard cardId)
       end.

(** [Object.is] on the dependency arrays of the two effects.
    End-condition effect:
    [gameState.cards, gameState.attempts, gameState.gameStatus].
    Match effect: [gameState.selectedCards, checkForMatch], where
    [checkForMatch] is rebuilt when [gameState.selectedCards] or
    [gameState.cards] changes. *)
Definition endDepsChanged (prev cur : GameState) (queue : list Update) : bool :=
  existsb newCards queue
  || negb (attempts cur =? attempts prev)
  || negb (GameStatus_eqb (gameStatus cur) (gameStatus prev)).

Definition matchDepsChanged (queue : list Update) : bool :=
  existsb newSelectedCards queue
  || (existsb newSelectedCards queue || existsb newCards queue).

(** ** The components

    What [App], [GameBoard], [Card], [GameStats] and [GameModal] render, as
    a tree of elements.  An element keeps its tag, its [className], its
    [onClick] handler and its children; [null] and [false] render nothing.
    The game cards of the state are [Card] above, so the component [Card]
    is [CardComponent] here. *)

(** The props of the component [Card], [onClick] apart: [GameBoard] always
    passes [handleCardClick]. *)
Module CardProps.
Record t : Type := make {
  id : Id;
  flavour : Flavour;
  isFlipped : bool;
  isMatched : bool;
  disabled : bool
}.
End CardProps.

Inductive Handler : Type :=
| CardHandleClick (props : CardProps.t)  (* [handleClick] of a card *)
| OnRestart.                             (* [restartGame] *)

#[warnings="-register-all"]
Inductive VNode : Type :=
| vtext (s : string)
| vnumber (z : Z)
| vnothing
| velement (tag className : string) (onClick : option Handler)
           (children : list VNode).

(** The strings, the numbers and the handlers of a tree, in document
    order. *)
Fixpoint texts (v : VNode) : list string :=
  match v with
  | vtext s => [s]
  | velement _ _ _ children => flat_map texts children
  | _ => []
  end.

Fixpoint numbers (v : VNode) : list Z :=
  match v with
  | vnumber z => [z]
  | velement _ _ _ children => flat_map numbers children
  | _ => []
  end.

Fixpoint handlers (v : VNode) : list Handler :=
  match v with
  | velement _ _ onClick children =>
      match onClick with
      | Some h => [h]
      | None => []
      end ++ flat_map handlers children
  | _ => []
  end.

(** [handleClick] of [Card]: the identifier handed to [onClick], if any,
    and the new value of the local state [isFlipping] (a timer clears it
    after 300 ms). *)
Definition handleClick (isFlipping : bool) (props : CardProps.t)
  : option Id * bool :=
  if isFlipping || CardProps.disabled props
     || CardProps.isFlipped props || CardProps.isMatched props
  then (None, isFlipping)
  else (Some (CardProps.id props), true).

Definition cardClasses (props : CardProps.t) : string :=
  String.append "card "
    (String.append (if CardProps.isFlipped props then "flipped" else "")
       (String.append " "
          (if CardProps.isMatched props then "matched" else ""))).

Definition CardComponent (props : CardProps.t) : VNode :=
  velement "div" (cardClasses props) (Some (CardHandleClick props))
    [velement "div" "card-inner" None
       [velement "div" "card-front" None [];
        velement "div" "card-back" None
          [if CardProps.isFlipped props
           then vtext (CardProps.flavour props) else vnothing]]].

(** The props [GameBoard] gives to the card it renders for [card]. *)
Definition cardProps (gameStatus : GameStatus) (card : Card) : CardProps.t :=
  {| CardProps.id := id card;
     CardProps.flavour := flavour card;
     CardProps.isFlipped := isFlipped card;
     CardProps.isMatched := isMatched card;
     CardProps.disabled := negb (GameStatus_eqb gameStatus playing) |}.

Definition GameBoard (cards : list Card) (gameStatus : GameStatus) : VNode :=
  velement "div" "game-board" None
    (map (fun card => CardComponent (cardProps gameStatus card)) cards).

Definition statusName (s : GameStatus) : string :=
  match s with
  | playing => "playing"
  | won => "won"
  | lost => "lost"
  end.

Definition GameStats (attempts maxAttempts : nat) (gameStatus : GameStatus)
  : VNode :=
  velement "div" "game-stats" None
    [velement "div" "attempts" None
       [vtext "Attempts: "; vnumber (Z.of_nat attempts);
        vtext " / "; vnumber (Z.of_nat maxAttempts)];
     velement "div" "remaining" None
       [vtext "Remaining: ";
        vnumber (Z.of_nat maxAttempts - Z.of_nat attempts)%Z];
     if negb (GameStatus_eqb gameStatus playing)
     then velement "div" (String.append "game-status " (statusName gameStatus))
            None
            [vtext (if GameStatus_eqb gameStatus won
                    then "Congratulations! You Won!" else "Game Over!")]
     else vnothing].

(** A number inside a template literal. *)
Definition decimal (n : nat) : string :=
  NilEmpty.string_of_uint (Nat.to_uint n).

Definition GameModal (isVisible : bool) (gameStatus : GameStatus)
  (attempts : nat) : VNode :=
  if negb isVisible then vnothing
  else
    velement "div" "modal-overlay" None
      [velement "div" "modal-content" None
         [velement "h2" "" None
            [vtext (if GameStatus_eqb gameStatus won
                    then "Congratulations!" else "Game Over!")];
          velement "p" "" None
            [vtext (if GameStatus_eqb gameStatus won
                    then String.append "You won in "
                           (String.append (decimal attempts) " attempts!")
                    else "You ran out of attempts. Try again!")];
          velement "button" "restart-button" (Some OnRestart)
            [vtext "Play Again"]]].

(** [App], from the state the hook returns. *)
Definition App (gs : GameState) : VNode :=
  velement "div" "App" None
    [velement "h1" "" None [vtext "Memory Match Game"];
     GameStats (attempts gs) MAX_ATTEMPTS (gameStatus gs);
     GameBoard (cards gs) (gameStatus gs);
     GameModal (negb (GameStatus_eqb (gameStatus gs) playing))
       (gameStatus gs) (attempts gs)].

(** React warns about and cuts off chains of nested updates at this
    length; the hook needs at most three renders per event
    ([settle_total] below). *)
Definition NESTED_UPDATE_LIMIT : nat := 50.

(** ** A concrete environment

    Identifiers "a", "b", "c", ... in call order, a shuffle that reverses
    the deck, and the six flavours of the design document. *)
Definition sampleId (n : nat) : Id :=
  String (Ascii.ascii_of_nat (97 + n)) EmptyString.

Definition sampleGenerateId (n : nat) : Id * nat := (sampleId n, S n).

Definition sampleShuffle (cs : list Card) (n : nat) : list Card * nat :=
  (rev cs, n).

Definition sampleFlavours : list (string * string) :=
  [("chocolate", "CHOC"); ("vanilla", "VANI"); ("strawberry", "STRA");
   ("mint", "MINT"); ("coffee", "COFF"); ("lemon", "LEMO")]%string.

Section Hook.

(** The helpers of utils/gameHelpers.js and the table of utils/constants.js
    are not part of the sources; they are parameters.  The random helpers
    thread a generator state. *)
Variable Rand : Type.
Variable generateId : Rand -> Id * Rand.
Variable shuffleArray : list Card -> Rand -> list Card * Rand.
(** [Object.entries(FLAVOURS)]: pairs of flavour name and emoji. *)
Variable FLAVOURS : list (string * string).

(** [Object.entries(FLAVOURS).flatMap(([flavour, emoji]) => [..., ...])] *)
Fixpoint cardPairs (entries : list (string * string)) (r : Rand)
  : list Card * Rand :=
  match entries with
  | [] => ([], r)
  | (_, emoji) :: rest =>
      let (id1, r1) := generateId r in
      let (id2, r2) := generateId r1 in
      let (more, r3) := cardPairs rest r2 in
      (mkCard id1 emoji false false :: mkCard id2 emoji false false :: more,
       r3)
  end.

Definition initializeGame (r : Rand) : GameState * Rand :=
  let (pairs, r1) := cardPairs FLAVOURS r in
  let (shuffled, r2) := shuffleArray pairs r1 in
  ({| cards := shuffled;
      selectedCards := [];
      attempts := 0;
      gameStatus := playing;
      isChecking := false |}, r2).

(** The mounted hook: the committed state, the pending flip-back timers
    (oldest first) and the state of the random generator. *)
Record World : Type := mkWorld {
  gameState : GameState;
  timers : list Timer;
  rand : Rand
}.

Inductive Outcome : Type :=
| Settled (w : World)   (* no update is queued any more *)
| Crashed               (* an effect threw: React unmounts the tree *)
| OutOfFuel.            (* the nested update limit was reached *)

(** Commit state [cur] and run the effects whose dependencies changed:
    [run1] for the end-condition effect, [run2] for the match effect. *)
Definition runEffects (run1 run2 : bool) (w : World) (cur : GameState)
  : Result (World * list Update) :=
  let queue1 := if run1 then endConditionEffect cur else [] in
  match (if run2 then matchEffect cur else Return ([], [])) with
  | TypeError => TypeError
  | Return (queue2, scheduled) =>
      Return ({| gameState := cur;
                 timers := timers w ++ scheduled;
                 rand := rand w |}, queue1 ++ queue2)
  end.

(** One render caused by the queued updates. *)
Definition rerender (w : World) (queue : list Update)
  : Result (World * list Update) :=
  let prev := gameState w in
  let cur := applyQueue queue prev in
  runEffects (endDepsChanged prev cur queue) (matchDepsChanged queue) w cur.

Fixpoint settle (fuel : nat) (w : World) (queue : list Update) : Outcome :=
  match queue with
  | [] => Settled w
  | _ :: _ =>
      match fuel with
      | 0 => OutOfFuel
      | S fuel' =>
          match rerender w queue with
          | TypeError => Crashed
          | Return (w', queue') => settle fuel' w' queue'
          end
      end
  end.

Arguments settle : simpl never.

(** [useState(initializeGame)] and the first render, after which every
    effect runs. *)
Definition mount (r : Rand) : Outcome :=
  let (gs, r') := initializeGame r in
  match runEffects true true
          {| gameState := gs; timers := []; rand := r' |} gs with
  | TypeError => Crashed
  | Return (w, queue) => settle NESTED_UPDATE_LIMIT w queue
  end.

(** [setGameState(initializeGame())] *)
Definition restartGame (w : World) : World * list Update :=
  let (gs, r') := initializeGame (rand w) in
  ({| gameState := gameState w; timers := timers w; rand := r' |},
   [Replace gs]).

(** What can happen to the mounted hook. *)
Inductive Event : Type :=
| Click (cardId : Id)   (* handleCardClick(cardId) *)
| Restart               (* restartGame() *)
| Timeout.              (* the oldest pending timer fires *)

Definition step (w : World) (e : Event) : Outcome :=
  match e with
  | Click cardId =>
      match handleCardClick (gameState w) cardId with
      | TypeError => Settled w  (* thrown out of the handler, nothing queued *)
      | Return queue => settle NESTED_UPDATE_LIMIT w queue
      end
  | Restart =>
      let (w', queue) := restartGame w in
      settle NESTED_UPDATE_LIMIT w' queue
  | Timeout =>
      match timers w with
      | [] => Settled w
      | (firstCardId, secondCardId) :: rest =>
          settle NESTED_UPDATE_LIMIT
            {| gameState := gameState w; timers := rest; rand := rand w |}
            [FlipBack firstCardId secondCardId]
      end
  end.

Arguments step : simpl never.

Fixpoint run (w : World) (es : list Event) : Outcome :=
  match es with
  | [] => Settled w
  | e :: rest =>
      match step w e with
      | Settled w' => run w' rest
      | other => other
      end
  end.

Definition play (r : Rand) (es : list Event) : Outcome :=
  match mount r with
  | Settled w => run w es
  | other => other
  end.

(** ** Vocabulary of the properties *)

Definition isReplace (u : Update) : bool :=
  match u with Replace _ => true | _ => false end.

(** Every selected identifier is the identifier of a card. *)
Definition selectedFound (gs : GameState) : bool :=
  forallb (fun cardId => match findCard cardId (cards gs) with
                         | Some _ => true
                         | None => false
                         end) (selectedCards gs).

(** What every settled hook satisfies ([reachable_invariant]). *)
Record Invariant (w : World) : Prop := mkInvariant {
  inv_bound : attempts (gameState w) <= MAX_ATTEMPTS;
  inv_found : selectedFound (gameState w) = true;
  inv_playing : gameStatus (gameState w) = playing ->
                attempts (gameState w) < MAX_ATTEMPTS
}.

(** The same while updates are queued: what holds of the state the next
    render commits. *)
Record Pending (w : World) (queue : list Update) : Prop := mkPending {
  pend_bound :
    attempts (applyQueue queue (gameState w)) <= MAX_ATTEMPTS;
  pend_found :
    selectedFound (applyQueue queue (gameState w)) = true;
  pend_check :
    matchDepsChanged queue = true ->
    length (selectedCards (applyQueue queue (gameState w))) = 2 ->
    attempts (applyQueue queue (gameState w)) < MAX_ATTEMPTS;
  pend_playing :
    endDepsChanged (gameState w) (applyQueue queue (gameState w)) queue
      = false ->
    gameStatus (applyQueue queue (gameState w)) = playing ->
    attempts (applyQueue queue (gameState w)) < MAX_ATTEMPTS
}.

(** Updates other than a restart keep the board and never lower the count
    of attempts. *)
Definition Frame (gs gs' : GameState) : Prop :=
  map id (cards gs') = map id (cards gs) /\
  map flavour (cards gs') = map flavour (cards gs) /\
  attempts gs <= attempts gs'.

(** A session as [initializeGame] is meant to produce it: twelve cards, two
    per emoji of [FLAVOURS], all face down and unmatched, nothing selected,
    no attempt counted, the game being played. *)
Record FreshSession (gs : GameState) : Prop := mkFreshSession {
  fresh_count : length (cards gs) = 12;
  fresh_pairs : forall emoji, In emoji (map snd FLAVOURS) ->
                count_occ string_dec (map flavour (cards gs)) emoji = 2;
  fresh_flavours : forall card, In card (cards gs) ->
                   In (flavour card) (map snd FLAVOURS);
  fresh_down : forall card, In card (cards gs) ->
               isFlipped card = false /\ isMatched card = false;
  fresh_selected : selectedCards gs = [];
  fresh_attempts : attempts gs = 0;
  fresh_status : gameStatus gs = playing;
  fresh_checking : isChecking gs = false
}.

(** Queues that the effects can produce. *)
Definition statusOnly (queue : list Update) : Prop :=
  queue = [] \/ exists s, s <> playing /\ queue = [SetStatus s].

Definition effectShaped (queue : list Update) : Prop :=
  exists queue1 queue2,
    queue = queue1 ++ queue2 /\ statusOnly queue1 /\
    (queue2 = [] \/ queue2 = [BeginCheck] \/
     exists a b, queue2 = [BeginCheck; MarkMatched a b]).

(** The status that the end-condition effect assigns to a board and a count
    of attempts. *)
Definition expectedStatus (gs : GameState) : GameStatus :=
  if forallb isMatched (cards gs) then won
  else if MAX_ATTEMPTS <=? attempts gs then lost
  else playing.

(** What every settled hook satisfies beyond [Invariant]
    ([reachable_coherent]): the status is the one of the board, and
    [isChecking] is set exactly while two cards are selected, with a timer
    pending. *)
Record Coherent (w : World) : Prop := mkCoherent {
  coh_found : selectedFound (gameState w) = true;
  coh_bound : attempts (gameState w) <= MAX_ATTEMPTS;
  coh_status : gameStatus (gameState w) = expectedStatus (gameState w);
  coh_checking : isChecking (gameState w) = true ->
                 length (selectedCards (gameState w)) = 2 /\ timers w <> [];
  coh_idle : isChecking (gameState w) = false ->
             length (selectedCards (gameState w)) <= 1
}.

(** Without restarts: no timer is pending, or exactly one, the one of the
    two selected cards. *)
Definition OneTimer (w : World) : Prop :=
  (timers w = [] /\ isChecking (gameState w) = false) \/
  (exists a b, timers w = [(a, b)] /\
               selectedCards (gameState w) = [a; b] /\
               isChecking (gameState w) = true).

(** The cards of two states related position by position. *)
Definition CardsRelated (P : Card -> Card -> Prop) (gs gs' : GameState)
  : Prop :=
  Forall2 P (cards gs) (cards gs').

(** The same card, matched if it was matched. *)
Definition staysMatched (c c' : Card) : Prop :=
  id c' = id c /\ (isMatched c = true -> isMatched c' = true).

(** The same card, face up if it was face up. *)
Definition staysFaceUp (c c' : Card) : Prop :=
  id c' = id c /\ (isFlipped c = true -> isFlipped c' = true).

(** How many cards are matched. *)
Definition matchedCount (gs : GameState) : nat :=
  length (filter isMatched (cards gs)).

(** From [gs] to [gs'] the board kept its identifiers and every two newly
    matched cards were paid for with an attempt. *)
Definition PaidFor (gs gs' : GameState) : Prop :=
  map id (cards gs') = map id (cards gs) /\
  matchedCount gs' + 2 * attempts gs <= matchedCount gs + 2 * attempts gs'.

(** ** Facts about card lists *)

Lemma findCard_Some (cardId : Id) (cs : list Card) (card : Card) :
  findCard cardId cs = Some card -> In card cs /\ id card = cardId.
Proof.
  unfold findCard. intros H. apply find_some in H.
  destruct H as [Hin Heq]. split; [exact Hin|].
  now apply String.eqb_eq.
Qed.

Lemma findCard_None (cardId : Id) (cs : list Card) :
  ~ In cardId (map id cs) -> findCard cardId cs = None.
Proof.
  unfold findCard. induction cs as [|c cs IH]; simpl; intros H; [reflexivity|].
  destruct (String.eqb (id c) cardId) eqn:E.
  - apply String.eqb_eq in E. exfalso. apply H. now left.
  - apply IH. intros Hin. apply H. now right.
Qed.

Lemma findCard_map (f : Card -> Card) (cardId : Id) (cs : list Card) :
  (forall c, id (f c) = id c) ->
  findCard cardId (map f cs) = option_map f (findCard cardId cs).
Proof.
  intros Hid. unfold findCard.
  induction cs as [|c cs IH]; simpl; [reflexivity|].
  rewrite Hid. destruct (String.eqb (id c) cardId); [reflexivity|exact IH].
Qed.

Lemma forallb_isMatched_map (f : Card -> Card) (cs : list Card) :
  (forall c, isMatched (f c) = isMatched c) ->
  forallb isMatched (map f cs) = forallb isMatched cs.
Proof.
  intros Hm. induction cs as [|c cs IH]; simpl; [reflexivity|].
  now rewrite Hm, IH.
Qed.

Lemma forallb_isMatched_false (cs : list Card) (card : Card) :
  In card cs -> isMatched card = false -> forallb isMatched cs = false.
Proof.
  intros Hin Hm. destruct (forallb isMatched cs) eqn:E; [|reflexivity].
  rewrite forallb_forall in E. specialize (E _ Hin). congruence.
Qed.

Lemma flipOne_id i c : id (flipOne i c) = id c.
Proof. unfold flipOne. now destruct (String.eqb (id c) i). Qed.

Lemma flipOne_flavour i c : flavour (flipOne i c) = flavour c.
Proof. unfold flipOne. now destruct (String.eqb (id c) i). Qed.

Lemma flipOne_isMatched i c : isMatched (flipOne i c) = isMatched c.
Proof. unfold flipOne. now destruct (String.eqb (id c) i). Qed.

Lemma matchTwo_id a b c : id (matchTwo a b c) = id c.
Proof.
  unfold matchTwo.
  now destruct (String.eqb (id c) a || String.eqb (id c) b).
Qed.

Lemma matchTwo_flavour a b c : flavour (matchTwo a b c) = flavour c.
Proof.
  unfold matchTwo.
  now destruct (String.eqb (id c) a || String.eqb (id c) b).
Qed.

Lemma unflipTwo_id a b c : id (unflipTwo a b c) = id c.
Proof.
  unfold unflipTwo.
  now destruct (String.eqb (id c) a || String.eqb (id c) b).
Qed.

Lemma unflipTwo_flavour a b c : flavour (unflipTwo a b c) = flavour c.
Proof.
  unfold unflipTwo.
  now destruct (String.eqb (id c) a || String.eqb (id c) b).
Qed.

Lemma unflipTwo_isMatched a b c : isMatched (unflipTwo a b c) = isMatched c.
Proof.
  unfold unflipTwo.
  now destruct (String.eqb (id c) a || String.eqb (id c) b).
Qed.

Lemma GameStatus_eqb_refl s : GameStatus_eqb s s = true.
Proof. now destruct s. Qed.

Lemma GameStatus_eqb_eq a b : GameStatus_eqb a b = true <-> a = b.
Proof. destruct a, b; simpl; split; congruence. Qed.

(** ** One render at a time *)

Lemma MAX_ATTEMPTS_eq : MAX_ATTEMPTS = 15.
Proof. reflexivity. Qed.

Opaque MAX_ATTEMPTS.

Lemma settle_nil fuel w : settle fuel w [] = Settled w.
Proof. now destruct fuel. Qed.

Lemma settle_cons fuel w u queue :
  settle (S fuel) w (u :: queue) =
  match rerender w (u :: queue) with
  | TypeError => Crashed
  | Return (w', queue') => settle fuel w' queue'
  end.
Proof. reflexivity. Qed.

(** ** The effects, case by case *)

Lemma endConditionEffect_cases (gs : GameState) :
  (endConditionEffect gs = [] /\
   (gameStatus gs = playing -> attempts gs < MAX_ATTEMPTS)) \/
  (gameStatus gs = playing /\
   exists s, s <> playing /\ endConditionEffect gs = [SetStatus s]).
Proof.
  unfold endConditionEffect.
  destruct (gameStatus gs); try (left; split; [reflexivity|discriminate]).
  destruct (forallb isMatched (cards gs)).
  - right. split; [reflexivity|]. exists won. now split.
  - destruct (MAX_ATTEMPTS <=? attempts gs) eqn:E.
    + right. split; [reflexivity|]. exists lost. now split.
    + left. split; [reflexivity|]. intros _. now apply Nat.leb_gt.
Qed.

Lemma endConditionEffect_statusOnly (gs : GameState) :
  statusOnly (endConditionEffect gs).
Proof.
  destruct (endConditionEffect_cases gs) as [[-> _] | [_ (s & Hs & ->)]].
  - now left.
  - right. now exists s.
Qed.

Lemma matchEffect_cases (gs : GameState) queue scheduled :
  matchEffect gs = Return (queue, scheduled) ->
  (queue = [] /\ scheduled = [] /\ length (selectedCards gs) <> 2) \/
  (exists a b,
     selectedCards gs = [a; b] /\
     ((queue = [BeginCheck; MarkMatched a b] /\ scheduled = []) \/
      (queue = [BeginCheck] /\ scheduled = [(a, b)]))).
Proof.
  unfold matchEffect, checkForMatch.
  destruct (selectedCards gs) as [|a [|b [|c rest]]]; simpl;
    try (intros [= <- <-]; left; repeat split; discriminate).
  destruct (findCard a (cards gs)) as [ca|]; [|discriminate].
  destruct (findCard b (cards gs)) as [cb|]; [|discriminate].
  destruct (String.eqb (flavour ca) (flavour cb));
    intros [= <- <-]; right; exists a, b; split; auto.
Qed.

Lemma matchEffect_returns (gs : GameState) :
  selectedFound gs = true ->
  exists queue scheduled, matchEffect gs = Return (queue, scheduled).
Proof.
  unfold selectedFound, matchEffect, checkForMatch.
  destruct (selectedCards gs) as [|a [|b [|c rest]]]; simpl;
    try (intros _; eexists; eexists; reflexivity).
  destruct (findCard a (cards gs)) as [ca|]; [|discriminate].
  destruct (findCard b (cards gs)) as [cb|]; [|discriminate].
  intros _. destruct (String.eqb (flavour ca) (flavour cb));
    eexists; eexists; reflexivity.
Qed.

(** What one render does to the world. *)
Lemma rerender_inv (w w' : World) (queue queue' : list Update) :
  rerender w queue = Return (w', queue') ->
  gameState w' = applyQueue queue (gameState w) /\
  rand w' = rand w /\
  exists queue1 queue2 scheduled,
    queue' = queue1 ++ queue2 /\
    timers w' = timers w ++ scheduled /\
    queue1 = (if endDepsChanged (gameState w)
                   (applyQueue queue (gameState w)) queue
              then endConditionEffect (applyQueue queue (gameState w))
              else []) /\
    (if matchDepsChanged queue
     then matchEffect (applyQueue queue (gameState w))
     else Return ([], [])) = Return (queue2, scheduled).
Proof.
  unfold rerender, runEffects. intros H.
  destruct (if matchDepsChanged queue
            then matchEffect (applyQueue queue (gameState w))
            else Return ([], [])) as [[queue2 scheduled]|] eqn:M;
    [|discriminate].
  injection H as <- <-. simpl. repeat split.
  exists (if endDepsChanged (gameState w)
               (applyQueue queue (gameState w)) queue
          then endConditionEffect (applyQueue queue (gameState w))
          else []), queue2, scheduled.
  repeat split.
Qed.

Lemma rerender_returns (w : World) (queue : list Update) :
  selectedFound (applyQueue queue (gameState w)) = true ->
  exists w' queue', rerender w queue = Return (w', queue').
Proof.
  intros Hf. unfold rerender, runEffects.
  destruct (matchDepsChanged queue).
  - destruct (matchEffect_returns _ Hf) as (q2 & ts & ->).
    eexists; eexists; reflexivity.
  - eexists; eexists; reflexivity.
Qed.

(** ** Three renders are enough *)

Lemma round_any (w w' : World) (queue queue' : list Update) :
  rerender w queue = Return (w', queue') -> effectShaped queue'.
Proof.
  intros H. apply rerender_inv in H.
  destruct H as (_ & _ & q1 & q2 & ts & -> & _ & Hq1 & Hq2).
  exists q1, q2. split; [reflexivity|]. split.
  - subst q1. destruct (endDepsChanged _ _ _);
      [apply endConditionEffect_statusOnly | now left].
  - destruct (matchDepsChanged queue).
    + apply matchEffect_cases in Hq2.
      destruct Hq2 as [(-> & _ & _) | (a & b & _ & [[-> _] | [-> _]])];
        eauto.
    + injection Hq2 as <- <-. now left.
Qed.

Lemma round_effect (w : World) (queue : list Update) :
  effectShaped queue ->
  exists w' queue', rerender w queue = Return (w', queue') /\
                    statusOnly queue'.
Proof.
  intros (q1 & q2 & -> & Hq1 & Hq2).
  destruct Hq1 as [-> | (s & _ & ->)];
    destruct Hq2 as [-> | [-> | (a & b & ->)]];
    unfold rerender, runEffects, matchDepsChanged, matchEffect; simpl;
    eexists; eexists; (split; [reflexivity|]);
    rewrite app_nil_r;
    repeat match goal with
           | |- context [if ?d then _ else _] => destruct d
           end;
    first [apply endConditionEffect_statusOnly | now left].
Qed.

Lemma round_status (w : World) (queue : list Update) :
  statusOnly queue -> exists w', rerender w queue = Return (w', []).
Proof.
  intros [-> | (s & Hs & ->)];
    unfold rerender, runEffects, matchDepsChanged, endDepsChanged; simpl.
  - rewrite Nat.eqb_refl, GameStatus_eqb_refl. simpl.
    eexists; reflexivity.
  - unfold endConditionEffect. simpl.
    destruct s; [congruence| |];
      destruct (negb _ || negb _); eexists; reflexivity.
Qed.

Lemma settle_total (fuel : nat) (w : World) (queue : list Update) :
  (exists w1 queue1, rerender w queue = Return (w1, queue1)) ->
  exists w', settle (3 + fuel) w queue = Settled w'.
Proof.
  intros (w1 & q1 & H1).
  destruct queue as [|u queue]; [eexists; apply settle_nil|].
  simpl plus. rewrite settle_cons, H1.
  apply round_any in H1.
  destruct q1 as [|u1 q1]; [eexists; apply settle_nil|].
  destruct (round_effect w1 _ H1) as (w2 & q2 & H2 & Hs2).
  rewrite settle_cons, H2.
  destruct q2 as [|u2 q2]; [eexists; apply settle_nil|].
  destruct (round_status w2 _ Hs2) as (w3 & H3).
  rewrite settle_cons, H3. eexists; apply settle_nil.
Qed.

(** A property of world and queue that every render preserves holds when
    the hook has settled. *)
Lemma settle_invariant (I : World -> list Update -> Prop) :
  (forall w queue w' queue',
      I w queue -> rerender w queue = Return (w', queue') -> I w' queue') ->
  forall fuel w queue w',
    I w queue -> settle fuel w queue = Settled w' -> I w' [].
Proof.
  intros Hround fuel. induction fuel as [|fuel IH]; intros w queue w' HI.
  - destruct queue; [|discriminate]. now intros [= <-].
  - destruct queue as [|u queue]; [now intros [= <-]|].
    rewrite settle_cons.
    destruct (rerender w (u :: queue)) as [[w1 q1]|] eqn:Hr; [|discriminate].
    apply IH. now apply (Hround w (u :: queue)).
Qed.

(** ** What the renders preserve *)

Lemma effectShaped_no_replace (queue : list Update) :
  effectShaped queue -> existsb isReplace queue = false.
Proof.
  intros (q1 & q2 & -> & [-> | (s & _ & ->)] & [-> | [-> | (a & b & ->)]]);
    reflexivity.
Qed.

Lemma Frame_refl gs : Frame gs gs.
Proof. unfold Frame. auto. Qed.

Lemma Frame_trans gs1 gs2 gs3 : Frame gs1 gs2 -> Frame gs2 gs3 -> Frame gs1 gs3.
Proof.
  intros (Hi & Hf & Ha) (Hi' & Hf' & Ha'). repeat split; try congruence. lia.
Qed.

Lemma applyUpdate_Frame (u : Update) (gs : GameState) :
  isReplace u = false -> Frame gs (applyUpdate u gs).
Proof.
  destruct u; simpl; intros H; try discriminate; unfold Frame; simpl;
    rewrite ?map_map; repeat split; try lia; apply map_ext; intros c;
    auto using flipOne_id, flipOne_flavour, matchTwo_id, matchTwo_flavour,
               unflipTwo_id, unflipTwo_flavour.
Qed.

Lemma applyQueue_Frame (queue : list Update) (gs : GameState) :
  existsb isReplace queue = false -> Frame gs (applyQueue queue gs).
Proof.
  revert gs. induction queue as [|u queue IH]; intros gs H.
  - apply Frame_refl.
  - simpl in H. apply orb_false_elim in H. destruct H as [Hu Hq].
    apply Frame_trans with (applyUpdate u gs).
    + now apply applyUpdate_Frame.
    + now apply IH.
Qed.

Lemma settle_Frame (fuel : nat) (w w' : World) (queue : list Update) :
  settle fuel w queue = Settled w' ->
  existsb isReplace queue = false ->
  Frame (gameState w) (gameState w').
Proof.
  intros Hs Hq.
  apply (settle_invariant
           (fun w1 q1 => existsb isReplace q1 = false /\
                         Frame (gameState w) (gameState w1)))
    in Hs.
  - apply Hs.
  - intros w1 q1 w2 q2 [Hq1 HF] Hr. split.
    + apply effectShaped_no_replace. eapply round_any; eassumption.
    + apply rerender_inv in Hr. destruct Hr as (-> & _).
      eapply Frame_trans; [exact HF|]. now apply applyQueue_Frame.
  - split; [exact Hq | apply Frame_refl].
Qed.

Lemma Pending_round (w w' : World) (queue queue' : list Update) :
  Pending w queue ->
  rerender w queue = Return (w', queue') ->
  Pending w' queue'.
Proof.
  intros [Hb Hf Hc Hp] Hr. apply rerender_inv in Hr.
  destruct Hr as (Hgs & _ & q1 & q2 & ts & -> & _ & Hq1 & Hq2).
  set (cur := applyQueue queue (gameState w)) in *.
  assert (Hq2' : q2 = [] \/
                 exists a b,
                   selectedCards cur = [a; b] /\
                   attempts cur < MAX_ATTEMPTS /\
                   (q2 = [BeginCheck; MarkMatched a b] \/ q2 = [BeginCheck])).
  { destruct (matchDepsChanged queue) eqn:D2.
    - apply matchEffect_cases in Hq2.
      destruct Hq2 as [(-> & _) | (a & b & Hsel & Hcase)]; [now left|].
      right. exists a, b. split; [exact Hsel|]. split.
      + apply Hc; [reflexivity|]. now rewrite Hsel.
      + destruct Hcase as [[-> _] | [-> _]]; auto.
    - injection Hq2 as <- <-. now left. }
  assert (Hq1' : (q1 = [] /\
                  (gameStatus cur = playing -> attempts cur < MAX_ATTEMPTS)) \/
                 (gameStatus cur = playing /\
                  exists s, s <> playing /\ q1 = [SetStatus s])).
  { subst q1. destruct (endDepsChanged (gameState w) cur queue) eqn:D1.
    - apply endConditionEffect_cases.
    - left. split; [reflexivity|]. now apply Hp. }
  clear Hq1 Hq2 Hc Hp.
  assert (Hne : forall n, (n + 1 =? n) = false)
    by (intros n; apply Nat.eqb_neq; lia).
  destruct Hq1' as [[-> Hplay] | [Hplay (s & Hs & ->)]];
    destruct Hq2' as [-> | (a & b & Hsel & Hlt & [-> | ->])];
    constructor; rewrite Hgs; unfold applyQueue, selectedFound,
      matchDepsChanged, endDepsChanged; simpl;
    rewrite ?Hne, ?Nat.eqb_refl, ?GameStatus_eqb_refl; simpl;
    try discriminate; try lia; try assumption; try reflexivity;
    try (intros _ Hst; congruence).
  intros _. exact Hplay.
Qed.

Lemma Pending_nil (w : World) : Pending w [] <-> Invariant w.
Proof.
  split.
  - intros [Hb Hf _ Hp]. constructor; try assumption.
    apply Hp. unfold endDepsChanged. simpl.
    now rewrite Nat.eqb_refl, GameStatus_eqb_refl.
  - intros [Hb Hf Hp]. constructor; try assumption.
    + discriminate.
    + intros _. exact Hp.
Qed.

Lemma settle_Pending (fuel : nat) (w : World) (queue : list Update) :
  Pending w queue ->
  exists w', settle (3 + fuel) w queue = Settled w' /\ Invariant w'.
Proof.
  intros HP.
  destruct (settle_total fuel w queue) as [w' Hs].
  { apply rerender_returns. apply HP. }
  exists w'. split; [exact Hs|].
  apply Pending_nil.
  refine (settle_invariant Pending _ _ _ _ _ HP Hs).
  intros w1 q1 w2 q2. apply Pending_round.
Qed.

(** ** The handlers, case by case *)

Lemma handleCardClick_cases (gs : GameState) (cardId : Id) :
  handleCardClick gs cardId = TypeError \/
  handleCardClick gs cardId = Return [] \/
  (handleCardClick gs cardId = Return [FlipCard cardId] /\
   gameStatus gs = playing /\
   isChecking gs = false /\
   length (selectedCards gs) < 2 /\
   exists card, findCard cardId (cards gs) = Some card /\
                isFlipped card = false /\ isMatched card = false).
Proof.
  unfold handleCardClick.
  destruct (isChecking gs); [auto|].
  destruct (2 <=? length (selectedCards gs)) eqn:Hlen; [auto|].
  destruct (gameStatus gs); simpl; auto.
  destruct (findCard cardId (cards gs)) as [card|]; [|auto].
  destruct (isFlipped card) eqn:Hf; [auto|].
  destruct (isMatched card) eqn:Hm; [auto|]. simpl.
  right. right. apply Nat.leb_gt in Hlen. repeat split; auto.
  exists card. auto.
Qed.

Lemma selectedFound_flip (gs : GameState) (cardId : Id) (card : Card) :
  selectedFound gs = true ->
  findCard cardId (cards gs) = Some card ->
  selectedFound (applyUpdate (FlipCard cardId) gs) = true.
Proof.
  unfold selectedFound. simpl. intros Hf Hc.
  rewrite forallb_app. simpl.
  rewrite (findCard_map (flipOne cardId)) by apply flipOne_id.
  rewrite Hc. simpl. rewrite andb_true_r.
  rewrite forallb_forall in *. intros i Hi. specialize (Hf i Hi).
  rewrite (findCard_map (flipOne cardId)) by apply flipOne_id.
  now destruct (findCard i (cards gs)).
Qed.

Lemma initializeGame_fields (r r' : Rand) (gs : GameState) :
  initializeGame r = (gs, r') ->
  selectedCards gs = [] /\ attempts gs = 0 /\
  gameStatus gs = playing /\ isChecking gs = false.
Proof.
  unfold initializeGame.
  destruct (cardPairs FLAVOURS r) as [pairs r1].
  destruct (shuffleArray pairs r1) as [shuffled r2].
  intros [= <- _]. repeat split.
Qed.

Lemma Pending_replace (w : World) (r r' : Rand) (gs : GameState) :
  initializeGame r = (gs, r') -> Pending w [Replace gs].
Proof.
  intros H. apply initializeGame_fields in H.
  destruct H as (Hsel & Hatt & _ & _).
  constructor; unfold applyQueue, selectedFound; simpl;
    rewrite ?Hsel, ?Hatt; simpl; try discriminate; try reflexivity.
  apply Nat.le_0_l.
Qed.

Lemma mount_as_render (r r' : Rand) (gs : GameState) :
  initializeGame r = (gs, r') ->
  mount r =
  settle (S NESTED_UPDATE_LIMIT)
    {| gameState := gs; timers := []; rand := r' |} [Replace gs].
Proof.
  intros H. unfold mount. rewrite H. reflexivity.
Qed.

Lemma mount_Invariant (r : Rand) :
  exists w, mount r = Settled w /\ Invariant w.
Proof.
  destruct (initializeGame r) as [gs r'] eqn:H.
  rewrite (mount_as_render r r' gs H).
  apply (settle_Pending 48). now apply Pending_replace with r r'.
Qed.

(** Every event keeps the invariant; every event but a restart keeps the
    board and does not lower the count of attempts. *)
Lemma step_Invariant (w : World) (e : Event) :
  Invariant w ->
  exists w', step w e = Settled w' /\ Invariant w' /\
             (e <> Restart -> Frame (gameState w) (gameState w')).
Proof.
  intros Hinv. pose proof Hinv as [Hb Hf Hp]. destruct e as [cardId| |].
  - (* Click *)
    assert (Hsame : exists w', Settled w = Settled w' /\ Invariant w' /\
              (Click cardId <> Restart -> Frame (gameState w) (gameState w'))).
    { exists w. split; [reflexivity|]. split; [exact Hinv|].
      intros _. apply Frame_refl. }
    unfold step.
    destruct (handleCardClick_cases (gameState w) cardId)
      as [-> | [-> | (-> & Hst & _ & _ & card & Hc & _)]];
      [exact Hsame | rewrite settle_nil; exact Hsame |].
    destruct (settle_Pending 47 w [FlipCard cardId]) as (w' & Hs & Hi').
    { constructor; unfold applyQueue; simpl; try discriminate.
      - exact Hb.
      - now apply selectedFound_flip with card.
      - intros _ _. now apply Hp. }
    exists w'. split; [exact Hs|]. split; [exact Hi'|].
    intros _. now apply (settle_Frame _ _ _ _ Hs).
  - (* Restart *)
    unfold step, restartGame.
    destruct (initializeGame (rand w)) as [gs r'] eqn:Hinit.
    destruct (settle_Pending 47
                {| gameState := gameState w; timers := timers w; rand := r' |}
                [Replace gs]) as (w' & Hs & Hi').
    { now apply Pending_replace with (rand w) r'. }
    exists w'. split; [exact Hs|]. split; [exact Hi'|]. congruence.
  - (* Timeout *)
    unfold step. destruct (timers w) as [|[a b] rest].
    + exists w. split; [reflexivity|]. split; [exact Hinv|].
      intros _. apply Frame_refl.
    + destruct (settle_Pending 47
                  {| gameState := gameState w; timers := rest;
                     rand := rand w |}
                  [FlipBack a b]) as (w' & Hs & Hi').
      { constructor; unfold applyQueue, selectedFound; simpl;
          try discriminate; try reflexivity. exact Hb. }
      exists w'. split; [exact Hs|]. split; [exact Hi'|].
      intros _. now apply (settle_Frame _ _ _ _ Hs).
Qed.

Lemma run_Invariant (es : list Event) (w : World) :
  Invariant w -> exists w', run w es = Settled w' /\ Invariant w'.
Proof.
  revert w. induction es as [|e es IH]; intros w Hinv.
  - now exists w.
  - destruct (step_Invariant w e Hinv) as (w1 & Hs & Hi1 & _).
    simpl. rewrite Hs. now apply IH.
Qed.

(** Every sequence of events settles, in a world that satisfies the
    invariant. *)
Lemma reachable_invariant (r : Rand) (es : list Event) :
  exists w, play r es = Settled w /\ Invariant w.
Proof.
  destruct (mount_Invariant r) as (w0 & Hm & Hi0).
  unfold play. rewrite Hm. now apply run_Invariant.
Qed.

(** ** Mounting and restarting *)

(** Committing a state built by [initializeGame]: the end-condition effect
    sees it once, the match effect finds nothing selected. *)
Lemma replace_settles (fuel : nat) (w : World) (gs : GameState) :
  selectedCards gs = [] ->
  attempts gs = 0 ->
  gameStatus gs = playing ->
  settle (S (S fuel)) w [Replace gs] =
  Settled {| gameState := applyQueue (endConditionEffect gs) gs;
             timers := timers w;
             rand := rand w |}.
Proof.
  intros Hsel Hatt Hst.
  destruct gs as [cs sel att st chk]. simpl in *. subst sel att st.
  rewrite settle_cons.
  unfold rerender, runEffects, endDepsChanged, matchDepsChanged,
    endConditionEffect, matchEffect. simpl.
  assert (Hzero : (MAX_ATTEMPTS <=? 0) = false)
    by (rewrite MAX_ATTEMPTS_eq; reflexivity).
  rewrite Hzero.
  destruct (forallb isMatched cs); simpl.
  - rewrite settle_cons.
    unfold rerender, runEffects, endDepsChanged, matchDepsChanged. simpl.
    now rewrite settle_nil, !app_nil_r.
  - now rewrite settle_nil, !app_nil_r.
Qed.

Lemma restart_result (w : World) (gs : GameState) (r' : Rand) :
  initializeGame (rand w) = (gs, r') ->
  step w Restart =
  Settled {| gameState := applyQueue (endConditionEffect gs) gs;
             timers := timers w;
             rand := r' |}.
Proof.
  intros Hinit. unfold step, restartGame. rewrite Hinit.
  apply initializeGame_fields in Hinit.
  destruct Hinit as (Hsel & Hatt & Hst & _).
  unfold NESTED_UPDATE_LIMIT. now rewrite replace_settles.
Qed.

Lemma mount_result (r r' : Rand) (gs : GameState) :
  initializeGame r = (gs, r') ->
  mount r =
  Settled {| gameState := applyQueue (endConditionEffect gs) gs;
             timers := [];
             rand := r' |}.
Proof.
  intros Hinit. rewrite (mount_as_render r r' gs Hinit).
  apply initializeGame_fields in Hinit.
  destruct Hinit as (Hsel & Hatt & Hst & _).
  unfold NESTED_UPDATE_LIMIT. now rewrite replace_settles.
Qed.

(** The deck before the shuffle: two cards per entry, in the order of the
    entries, face down and unmatched. *)
Lemma cardPairs_spec (entries : list (string * string)) :
  forall (r r' : Rand) (cs : list Card),
    cardPairs entries r = (cs, r') ->
    map flavour cs = flat_map (fun e => [snd e; snd e]) entries /\
    Forall (fun c => isFlipped c = false /\ isMatched c = false) cs.
Proof.
  induction entries as [|[name emoji] rest IH]; intros r r' cs; simpl.
  - intros [= <- _]. split; [reflexivity | constructor].
  - destruct (generateId r) as [id1 r1].
    destruct (generateId r1) as [id2 r2].
    destruct (cardPairs rest r2) as [more r3] eqn:Hrest.
    intros [= <- _]. destruct (IH _ _ _ Hrest) as [Hfl Hall].
    simpl. rewrite Hfl. split; [reflexivity|].
    repeat constructor; assumption.
Qed.

Lemma in_doubled (entries : list (string * string)) (emoji : string) :
  In emoji (flat_map (fun e => [snd e; snd e]) entries) ->
  In emoji (map snd entries).
Proof.
  induction entries as [|e rest IH]; simpl; [auto|].
  intros [H | [H | H]]; auto.
Qed.

Lemma length_doubled (entries : list (string * string)) :
  length (flat_map (fun e => [snd e; snd e]) entries) = 2 * length entries.
Proof.
  induction entries as [|e rest IH]; simpl; [reflexivity|].
  rewrite IH. lia.
Qed.

Lemma count_doubled (entries : list (string * string)) (emoji : string) :
  NoDup (map snd entries) ->
  In emoji (map snd entries) ->
  count_occ string_dec (flat_map (fun e => [snd e; snd e]) entries) emoji = 2.
Proof.
  induction entries as [|e rest IH]; simpl; [intros _ []|].
  intros Hnd Hin. apply NoDup_cons_iff in Hnd. destruct Hnd as [Hnot Hnd].
  destruct (string_dec (snd e) emoji) as [Heq | Hneq].
  - subst emoji.
    assert (H0 : count_occ string_dec
                   (flat_map (fun e => [snd e; snd e]) rest) (snd e) = 0).
    { apply count_occ_not_In. intros H. apply Hnot. now apply in_doubled. }
    now rewrite H0.
  - destruct Hin as [Heq | Hin]; [contradiction|]. now apply IH.
Qed.

(** ** Particular events *)

(** A click that no guard lets through leaves the hook as it is. *)
Lemma click_ignored (w : World) (cardId : Id) :
  handleCardClick (gameState w) cardId = Return [] ->
  step w (Click cardId) = Settled w.
Proof.
  intros H. unfold step. rewrite H. apply settle_nil.
Qed.

(** A flip-back timer that fires while the game is over. *)
Lemma timeout_when_over (w : World) (a b : Id) (rest : list Timer) :
  gameStatus (gameState w) <> playing ->
  timers w = (a, b) :: rest ->
  step w Timeout =
  Settled {| gameState :=
               {| cards := map (unflipTwo a b) (cards (gameState w));
                  selectedCards := [];
                  attempts := attempts (gameState w);
                  gameStatus := gameStatus (gameState w);
                  isChecking := false |};
             timers := rest;
             rand := rand w |}.
Proof.
  intros Hst Hts. unfold step. rewrite Hts.
  unfold NESTED_UPDATE_LIMIT. rewrite settle_cons.
  unfold rerender, runEffects, endDepsChanged, matchDepsChanged,
    endConditionEffect, matchEffect. simpl.
  destruct (gameStatus (gameState w)) eqn:E; [congruence| |];
    simpl; now rewrite settle_nil, app_nil_r.
Qed.

(** The second card of a pair is clicked and has the flavour of the first:
    three renders (flip, match, end of game). *)
Lemma click_second_match (w : World) (a b : Id) (ca cb : Card) :
  gameStatus (gameState w) = playing ->
  isChecking (gameState w) = false ->
  selectedCards (gameState w) = [a] ->
  attempts (gameState w) < MAX_ATTEMPTS ->
  findCard a (cards (gameState w)) = Some ca ->
  findCard b (cards (gameState w)) = Some cb ->
  isFlipped cb = false ->
  isMatched cb = false ->
  flavour ca = flavour cb ->
  let cards' := map (matchTwo a b) (map (flipOne b) (cards (gameState w))) in
  step w (Click b) =
  Settled {| gameState :=
               {| cards := cards';
                  selectedCards := [];
                  attempts := attempts (gameState w) + 1;
                  gameStatus :=
                    if forallb isMatched cards' then won
                    else if MAX_ATTEMPTS <=? attempts (gameState w) + 1
                         then lost else playing;
                  isChecking := false |};
             timers := timers w;
             rand := rand w |}.
Proof.
  intros Hst Hchk Hsel Hatt Ha Hb Hfl Hma Hfv cards'.
  destruct w as [gs ts r]. destruct gs as [cs sel att st chk].
  simpl in *. subst st chk sel.
  unfold step, handleCardClick. simpl. rewrite Hb, Hfl, Hma. simpl.
  unfold flipCard, NESTED_UPDATE_LIMIT. rewrite settle_cons.
  unfold rerender, runEffects, endDepsChanged, matchDepsChanged. simpl.
  unfold endConditionEffect, matchEffect, checkForMatch. simpl.
  rewrite (forallb_isMatched_map (flipOne b)) by apply flipOne_isMatched.
  destruct (findCard_Some _ _ _ Hb) as [Hinb _].
  rewrite (forallb_isMatched_false cs cb Hinb Hma).
  apply Nat.leb_gt in Hatt as Hatt'. rewrite Hatt'.
  rewrite !(findCard_map (flipOne b)) by apply flipOne_id.
  rewrite Ha, Hb. simpl. rewrite !flipOne_flavour, Hfv, String.eqb_refl.
  simpl. rewrite app_nil_r.
  rewrite settle_cons. unfold rerender, runEffects, endDepsChanged, matchDepsChanged. simpl.
  unfold endConditionEffect. simpl. fold cards'.
  destruct (forallb isMatched cards') eqn:Hall; simpl.
  - rewrite settle_cons. unfold rerender, runEffects, endDepsChanged, matchDepsChanged. simpl.
    rewrite Nat.eqb_refl. simpl. now rewrite settle_nil, !app_nil_r.
  - destruct (MAX_ATTEMPTS <=? att + 1) eqn:Hout; simpl.
    + rewrite settle_cons. unfold rerender, runEffects, endDepsChanged, matchDepsChanged. simpl.
      rewrite Nat.eqb_refl. simpl. now rewrite settle_nil, !app_nil_r.
    + now rewrite settle_nil, !app_nil_r.
Qed.

(** The second card of a pair is clicked and has another flavour than the
    first: the flip, then the attempt is counted and the flip-back timer
    scheduled, then the end of the game is evaluated. *)
Lemma click_second_mismatch (w : World) (a b : Id) (ca cb : Card) :
  gameStatus (gameState w) = playing ->
  isChecking (gameState w) = false ->
  selectedCards (gameState w) = [a] ->
  attempts (gameState w) < MAX_ATTEMPTS ->
  findCard a (cards (gameState w)) = Some ca ->
  findCard b (cards (gameState w)) = Some cb ->
  isFlipped cb = false ->
  isMatched cb = false ->
  flavour ca <> flavour cb ->
  step w (Click b) =
  Settled {| gameState :=
               {| cards := map (flipOne b) (cards (gameState w));
                  selectedCards := [a; b];
                  attempts := attempts (gameState w) + 1;
                  gameStatus :=
                    if MAX_ATTEMPTS <=? attempts (gameState w) + 1
                    then lost else playing;
                  isChecking := true |};
             timers := timers w ++ [(a, b)];
             rand := rand w |}.
Proof.
  intros Hst Hchk Hsel Hatt Ha Hb Hfl Hma Hfv.
  destruct w as [gs ts r]. destruct gs as [cs sel att st chk].
  simpl in *. subst st chk sel.
  unfold step, handleCardClick. simpl. rewrite Hb, Hfl, Hma. simpl.
  unfold flipCard, NESTED_UPDATE_LIMIT. rewrite settle_cons.
  unfold rerender, runEffects, endDepsChanged, matchDepsChanged. simpl.
  unfold endConditionEffect, matchEffect, checkForMatch. simpl.
  rewrite (forallb_isMatched_map (flipOne b)) by apply flipOne_isMatched.
  destruct (findCard_Some _ _ _ Hb) as [Hinb _].
  rewrite (forallb_isMatched_false cs cb Hinb Hma).
  apply Nat.leb_gt in Hatt as Hatt'. rewrite Hatt'.
  rewrite !(findCard_map (flipOne b)) by apply flipOne_id.
  rewrite Ha, Hb. simpl. rewrite !flipOne_flavour.
  apply String.eqb_neq in Hfv. rewrite Hfv. simpl.
  rewrite settle_cons. unfold rerender, runEffects, endDepsChanged, matchDepsChanged. simpl.
  assert (Hne : (att + 1 =? att) = false) by (apply Nat.eqb_neq; lia).
  rewrite Hne. simpl.
  unfold endConditionEffect. simpl.
  rewrite (forallb_isMatched_map (flipOne b)) by apply flipOne_isMatched.
  rewrite (forallb_isMatched_false cs cb Hinb Hma).
  destruct (MAX_ATTEMPTS <=? att + 1) eqn:Hout; simpl.
  - rewrite settle_cons. unfold rerender, runEffects, endDepsChanged, matchDepsChanged. simpl.
    rewrite Nat.eqb_refl. simpl. now rewrite settle_nil, !app_nil_r.
  - now rewrite settle_nil, !app_nil_r.
Qed.

(** ** The claims *)

(** C5: for an existing card, [handleCardClick] changes nothing when the
    card is already flipped or matched, when [isChecking] is set, when two
    cards are selected already, or when the game is no longer being played:
    it returns without queueing an update and the hook stays as it was. *)
Theorem selectCard_guarded_is_noop (w : World) (cardId : Id) (card : Card) :
  findCard cardId (cards (gameState w)) = Some card ->
  isFlipped card = true \/ isMatched card = true \/
  isChecking (gameState w) = true \/
  2 <= length (selectedCards (gameState w)) \/
  gameStatus (gameState w) <> playing ->
  handleCardClick (gameState w) cardId = Return [] /\
  step w (Click cardId) = Settled w.
Proof.
  intros Hfind Hguard.
  assert (H : handleCardClick (gameState w) cardId = Return []).
  { unfold handleCardClick. rewrite Hfind.
    destruct (isChecking (gameState w)); [reflexivity|].
    destruct (2 <=? length (selectedCards (gameState w))) eqn:Hlen;
      [reflexivity|].
    destruct (gameStatus (gameState w)); simpl; try reflexivity.
    destruct Hguard as [Hf | [Hm | [Hc | [Hl | Hs]]]].
    - now rewrite Hf.
    - rewrite Hm. now destruct (isFlipped card).
    - discriminate.
    - apply Nat.leb_le in Hl. congruence.
    - congruence. }
  split; [exact H|]. now apply click_ignored.
Qed.

(** C4 (as the code has it): for an identifier that belongs to no card,
    [handleCardClick] never changes the hook, but it is silent only when
    one of the first three guards applies ([isChecking], two cards selected,
    game over); otherwise reading [card.isFlipped] of the card that was not
    found throws a [TypeError]. *)
Theorem selectCard_unknown_id (w : World) (cardId : Id) :
  ~ In cardId (map id (cards (gameState w))) ->
  step w (Click cardId) = Settled w /\
  (isChecking (gameState w) = true \/
   2 <= length (selectedCards (gameState w)) \/
   gameStatus (gameState w) <> playing ->
   handleCardClick (gameState w) cardId = Return []) /\
  (isChecking (gameState w) = false ->
   length (selectedCards (gameState w)) < 2 ->
   gameStatus (gameState w) = playing ->
   handleCardClick (gameState w) cardId = TypeError).
Proof.
  intros Hnot. apply findCard_None in Hnot.
  unfold step, handleCardClick. rewrite Hnot.
  split; [|split].
  - destruct (isChecking (gameState w)
              || (2 <=? length (selectedCards (gameState w)))
              || negb (GameStatus_eqb (gameStatus (gameState w)) playing));
      [apply settle_nil | reflexivity].
  - intros [Hc | [Hl | Hs]].
    + now rewrite Hc.
    + apply Nat.leb_le in Hl. rewrite Hl. now rewrite orb_true_r.
    + destruct (gameStatus (gameState w)); [congruence| |];
        now rewrite orb_true_r.
  - intros Hc Hl Hs. rewrite Hc, Hs. apply Nat.leb_gt in Hl.
    now rewrite Hl.
Qed.

(** C6: the end-condition effect tests the win before the loss.  Whenever a
    render commits a session that is being played, in which every card is
    matched and the attempts have reached the limit, the effect queues the
    status [won] (not [lost]), and the hook settles in that session with the
    status [won] and nothing else changed. *)
Theorem win_checked_before_loss (w : World) (queue : list Update) :
  let gs := applyQueue queue (gameState w) in
  endDepsChanged (gameState w) gs queue = true ->
  gameStatus gs = playing ->
  forallb isMatched (cards gs) = true ->
  attempts gs = MAX_ATTEMPTS ->
  length (selectedCards gs) <> 2 ->
  endConditionEffect gs = [SetStatus won] /\
  settle NESTED_UPDATE_LIMIT w queue =
  Settled {| gameState :=
               {| cards := cards gs;
                  selectedCards := selectedCards gs;
                  attempts := attempts gs;
                  gameStatus := won;
                  isChecking := isChecking gs |};
             timers := timers w;
             rand := rand w |}.
Proof.
  intros gs Hdeps Hst Hall Hatt Hlen.
  assert (Heff : endConditionEffect gs = [SetStatus won]).
  { unfold endConditionEffect. now rewrite Hst, Hall. }
  split; [exact Heff|].
  destruct queue as [|u queue].
  { unfold endDepsChanged in Hdeps. simpl in Hdeps.
    rewrite Nat.eqb_refl, GameStatus_eqb_refl in Hdeps. discriminate. }
  unfold NESTED_UPDATE_LIMIT. rewrite settle_cons.
  unfold rerender, runEffects. fold gs. rewrite Hdeps, Heff.
  assert (Hm : (if matchDepsChanged (u :: queue)
                then matchEffect gs else Return ([], []))
               = Return ([], [])).
  { unfold matchEffect. apply Nat.eqb_neq in Hlen. rewrite Hlen.
    now destruct (matchDepsChanged (u :: queue)). }
  rewrite Hm. simpl app. rewrite settle_cons.
  unfold rerender, runEffects, endDepsChanged, matchDepsChanged,
    endConditionEffect. simpl.
  rewrite Nat.eqb_refl, Hst. simpl.
  now rewrite settle_nil, !app_nil_r.
Qed.

(** The same through the whole hook: the pair that completes the board on
    the last allowed attempt wins the game. *)
Lemma winning_on_the_last_attempt (w : World) (a b : Id) (ca cb : Card) :
  gameStatus (gameState w) = playing ->
  isChecking (gameState w) = false ->
  selectedCards (gameState w) = [a] ->
  attempts (gameState w) + 1 = MAX_ATTEMPTS ->
  findCard a (cards (gameState w)) = Some ca ->
  findCard b (cards (gameState w)) = Some cb ->
  isFlipped cb = false ->
  isMatched cb = false ->
  flavour ca = flavour cb ->
  (forall c, In c (cards (gameState w)) ->
             id c <> a -> id c <> b -> isMatched c = true) ->
  exists w',
    step w (Click b) = Settled w' /\
    attempts (gameState w') = MAX_ATTEMPTS /\
    gameStatus (gameState w') = won.
Proof.
  intros Hst Hchk Hsel Hatt Ha Hb Hfl Hma Hfv Hrest.
  eexists. split.
  - apply (click_second_match w a b ca cb); auto. lia.
  - simpl. split; [exact Hatt|].
    replace (forallb isMatched
               (map (matchTwo a b) (map (flipOne b) (cards (gameState w)))))
      with true; [reflexivity|].
    symmetry. apply forallb_forall. intros c Hc.
    apply in_map_iff in Hc. destruct Hc as [c1 [<- Hc1]].
    apply in_map_iff in Hc1. destruct Hc1 as [c0 [<- Hc0]].
    unfold matchTwo. rewrite flipOne_id.
    destruct (String.eqb (id c0) a) eqn:Ea; [reflexivity|].
    destruct (String.eqb (id c0) b) eqn:Eb; [reflexivity|]. simpl.
    rewrite flipOne_isMatched.
    apply String.eqb_neq in Ea, Eb. now apply Hrest.
Qed.

(** C7: when the click that completes a selection picks a card with the
    flavour of the selected one, the same step marks both cards as matched
    (no timer is scheduled), counts exactly one attempt, empties the
    selection, leaves [isChecking] false, and sets the status to [won]
    exactly when every card of the board is now matched.  The bound on the
    attempts holds in every reachable game that is still being played
    ([reachable_invariant]). *)
Theorem match_evaluation_equal_flavours
  (w : World) (a b : Id) (ca cb : Card) :
  gameStatus (gameState w) = playing ->
  isChecking (gameState w) = false ->
  selectedCards (gameState w) = [a] ->
  attempts (gameState w) < MAX_ATTEMPTS ->
  findCard a (cards (gameState w)) = Some ca ->
  findCard b (cards (gameState w)) = Some cb ->
  isFlipped cb = false ->
  isMatched cb = false ->
  flavour ca = flavour cb ->
  exists (w' : World) (ca' cb' : Card),
    step w (Click b) = Settled w' /\
    cards (gameState w') =
      map (matchTwo a b) (map (flipOne b) (cards (gameState w))) /\
    findCard a (cards (gameState w')) = Some ca' /\ isMatched ca' = true /\
    findCard b (cards (gameState w')) = Some cb' /\ isMatched cb' = true /\
    timers w' = timers w /\
    attempts (gameState w') = attempts (gameState w) + 1 /\
    selectedCards (gameState w') = [] /\
    isChecking (gameState w') = false /\
    (gameStatus (gameState w') = won <->
     forall c, In c (cards (gameState w')) -> isMatched c = true).
Proof.
  intros Hst Hchk Hsel Hatt Ha Hb Hfl Hma Hfv.
  pose proof (click_second_match w a b ca cb
                Hst Hchk Hsel Hatt Ha Hb Hfl Hma Hfv) as Hstep.
  simpl in Hstep.
  destruct (findCard_Some _ _ _ Ha) as [_ Hida].
  destruct (findCard_Some _ _ _ Hb) as [_ Hidb].
  eexists. exists (matchTwo a b (flipOne b ca)), (matchTwo a b (flipOne b cb)).
  split; [exact Hstep|]. simpl.
  assert (Hfa : findCard a (map (matchTwo a b)
                  (map (flipOne b) (cards (gameState w))))
                = Some (matchTwo a b (flipOne b ca))).
  { rewrite findCard_map by apply matchTwo_id.
    rewrite findCard_map by apply flipOne_id. now rewrite Ha. }
  assert (Hfb : findCard b (map (matchTwo a b)
                  (map (flipOne b) (cards (gameState w))))
                = Some (matchTwo a b (flipOne b cb))).
  { rewrite findCard_map by apply matchTwo_id.
    rewrite findCard_map by apply flipOne_id. now rewrite Hb. }
  repeat split; try assumption; try reflexivity.
  - unfold matchTwo. rewrite flipOne_id, Hida, String.eqb_refl. reflexivity.
  - unfold matchTwo. rewrite flipOne_id, Hidb, String.eqb_refl.
    now rewrite orb_true_r.
  - intros Hwon. apply forallb_forall.
    destruct (forallb isMatched
                (map (matchTwo a b) (map (flipOne b) (cards (gameState w)))));
      [reflexivity|].
    destruct (MAX_ATTEMPTS <=? attempts (gameState w) + 1); discriminate.
  - intros Hall. apply forallb_forall in Hall. now rewrite Hall.
Qed.

(** C3 (as the code has it): when the mismatching pair uses up the last
    attempt, the end-condition effect sets the status to [lost] in the very
    step that counts the attempt, while both cards are still selected,
    [isChecking] is set and the flip-back timer is pending.  The timer fires
    afterwards: it turns the two cards back, empties the selection, clears
    [isChecking] and leaves the status [lost]. *)
Theorem lost_precedes_reversion (w : World) (a b : Id) (ca cb : Card) :
  gameStatus (gameState w) = playing ->
  isChecking (gameState w) = false ->
  selectedCards (gameState w) = [a] ->
  timers w = [] ->
  attempts (gameState w) + 1 = MAX_ATTEMPTS ->
  findCard a (cards (gameState w)) = Some ca ->
  findCard b (cards (gameState w)) = Some cb ->
  isFlipped cb = false ->
  isMatched cb = false ->
  flavour ca <> flavour cb ->
  exists w1 w2 : World,
    step w (Click b) = Settled w1 /\
    gameStatus (gameState w1) = lost /\
    attempts (gameState w1) = MAX_ATTEMPTS /\
    cards (gameState w1) = map (flipOne b) (cards (gameState w)) /\
    selectedCards (gameState w1) = [a; b] /\
    isChecking (gameState w1) = true /\
    timers w1 = [(a, b)] /\
    step w1 Timeout = Settled w2 /\
    gameStatus (gameState w2) = lost /\
    cards (gameState w2) = map (unflipTwo a b) (cards (gameState w1)) /\
    selectedCards (gameState w2) = [] /\
    isChecking (gameState w2) = false /\
    timers w2 = [].
Proof.
  intros Hst Hchk Hsel Hts Hatt Ha Hb Hfl Hma Hfv.
  assert (Hlt : attempts (gameState w) < MAX_ATTEMPTS) by lia.
  pose proof (click_second_mismatch w a b ca cb
                Hst Hchk Hsel Hlt Ha Hb Hfl Hma Hfv) as Hstep.
  rewrite Hatt, Nat.leb_refl, Hts in Hstep. simpl in Hstep.
  eexists. eexists. split; [exact Hstep|]. simpl.
  do 6 (split; [reflexivity|]).
  split; [apply timeout_when_over with (rest := []); simpl;
          [discriminate|reflexivity]|].
  simpl. repeat split.
Qed.

(** C2 (as the code has it): once the game is won or lost, a click changes
    nothing, and no event but a restart changes the attempts, the status or
    the identifier, flavour and [isMatched] flag of any card; a flip-back
    timer that is still pending does fire, though: it turns its two cards
    face down, empties the selection and clears [isChecking]. *)
Theorem game_over_freezes_all_but_reversion (w : World) :
  gameStatus (gameState w) <> playing ->
  (forall cardId, step w (Click cardId) = Settled w) /\
  (timers w = [] -> step w Timeout = Settled w) /\
  (forall a b rest, timers w = (a, b) :: rest ->
     exists w',
       step w Timeout = Settled w' /\
       attempts (gameState w') = attempts (gameState w) /\
       gameStatus (gameState w') = gameStatus (gameState w) /\
       map id (cards (gameState w')) = map id (cards (gameState w)) /\
       map flavour (cards (gameState w')) =
         map flavour (cards (gameState w)) /\
       map isMatched (cards (gameState w')) =
         map isMatched (cards (gameState w)) /\
       cards (gameState w') = map (unflipTwo a b) (cards (gameState w)) /\
       selectedCards (gameState w') = [] /\
       isChecking (gameState w') = false /\
       timers w' = rest).
Proof.
  intros Hst. split; [|split].
  - intros cardId. apply click_ignored. unfold handleCardClick.
    destruct (gameStatus (gameState w)); [congruence| |];
      now rewrite orb_true_r.
  - intros Hts. unfold step. now rewrite Hts.
  - intros a b rest Hts. eexists. split.
    + exact (timeout_when_over w a b rest Hst Hts).
    + simpl. repeat split; rewrite map_map; apply map_ext; intros c.
      * apply unflipTwo_id.
      * apply unflipTwo_flavour.
      * apply unflipTwo_isMatched.
Qed.

(** C8: along every sequence of events from the mounted hook (clicks,
    timers and restarts in any order) the count of attempts never exceeds
    15, and no click and no timer lowers it; a restart starts the next
    session, whose count begins at 0.  Every such sequence settles. *)
Theorem attempts_monotone_and_bounded
  (r : Rand) (es : list Event) (e : Event) :
  exists w w' : World,
    play r es = Settled w /\
    step w e = Settled w' /\
    attempts (gameState w) <= 15 /\
    attempts (gameState w') <= 15 /\
    (e <> Restart -> attempts (gameState w) <= attempts (gameState w')) /\
    (e = Restart -> attempts (gameState w') = 0).
Proof.
  destruct (reachable_invariant r es) as (w & Hplay & Hinv).
  destruct (step_Invariant w e Hinv) as (w' & Hstep & Hinv' & Hframe).
  exists w, w'. rewrite <- MAX_ATTEMPTS_eq.
  split; [exact Hplay|]. split; [exact Hstep|].
  split; [apply Hinv|]. split; [apply Hinv'|]. split.
  - intros He. now apply Hframe.
  - intros ->. destruct (initializeGame (rand w)) as [gs r'] eqn:Hinit.
    rewrite (restart_result w gs r' Hinit) in Hstep.
    injection Hstep as <-. simpl.
    apply initializeGame_fields in Hinit.
    destruct Hinit as (_ & Hatt & _ & _).
    unfold endConditionEffect.
    destruct (gameStatus gs); try exact Hatt.
    destruct (forallb isMatched (cards gs)); [exact Hatt|].
    destruct (MAX_ATTEMPTS <=? attempts gs); exact Hatt.
Qed.

(** C10: no click and no timer changes the identifier or the flavour of a
    card, the order of the cards or their number: the board after the event
    has the same identifiers and the same flavours, position by position
    (so only [isFlipped] and [isMatched] can differ).  The event settles
    whenever the selected identifiers are identifiers of cards, which holds
    in every reachable world ([reachable_invariant]). *)
Theorem cards_keep_identity_and_order (w : World) (e : Event) :
  e <> Restart ->
  selectedFound (gameState w) = true ->
  exists w',
    step w e = Settled w' /\
    length (cards (gameState w')) = length (cards (gameState w)) /\
    map id (cards (gameState w')) = map id (cards (gameState w)) /\
    map flavour (cards (gameState w')) = map flavour (cards (gameState w)).
Proof.
  intros He Hf.
  assert (Hlen : forall gs gs' : GameState,
             Frame gs gs' ->
             length (cards gs') = length (cards gs) /\
             map id (cards gs') = map id (cards gs) /\
             map flavour (cards gs') = map flavour (cards gs)).
  { intros gs gs' (Hi & Hfl & _). split; [|now split].
    rewrite <- (length_map id (cards gs')), Hi. apply length_map. }
  destruct e as [cardId| |]; [| congruence |]; unfold step.
  - destruct (handleCardClick_cases (gameState w) cardId)
      as [-> | [-> | (-> & _ & _ & _ & card & Hc & _)]].
    + exists w. split; [reflexivity|]. apply Hlen, Frame_refl.
    + exists w. split; [apply settle_nil|]. apply Hlen, Frame_refl.
    + destruct (settle_total 47 w [FlipCard cardId]) as [w' Hs].
      { apply rerender_returns. now apply selectedFound_flip with card. }
      exists w'. split; [exact Hs|].
      apply Hlen. now apply (settle_Frame _ _ _ _ Hs).
  - destruct (timers w) as [|[a b] rest].
    + exists w. split; [reflexivity|]. apply Hlen, Frame_refl.
    + destruct (settle_total 47
                  {| gameState := gameState w; timers := rest;
                     rand := rand w |} [FlipBack a b]) as [w' Hs].
      { apply rerender_returns. reflexivity. }
      exists w'. split; [exact Hs|].
      apply Hlen. now apply (settle_Frame _ _ _ _ Hs).
Qed.

(** C9: with a shuffle that permutes its argument and six entries with
    distinct emoji in [FLAVOURS], the state built by [initializeGame] is a
    fresh session (twelve cards, each emoji twice, no attempt, status
    [playing], nothing selected, [isChecking] false, no card flipped or
    matched); mounting the hook settles in that state, and so does
    [restartGame] from every world, whatever its status. *)
Theorem initialize_and_restart_fresh :
  (forall cs r, Permutation cs (fst (shuffleArray cs r))) ->
  length FLAVOURS = 6 ->
  NoDup (map snd FLAVOURS) ->
  (forall r, FreshSession (fst (initializeGame r))) /\
  (forall r, exists w,
      mount r = Settled w /\
      gameState w = fst (initializeGame r) /\
      FreshSession (gameState w)) /\
  (forall w, exists w',
      step w Restart = Settled w' /\
      gameState w' = fst (initializeGame (rand w)) /\
      FreshSession (gameState w')).
Proof.
  intros Hperm Hsix Hdistinct.
  assert (Hfresh : forall r, FreshSession (fst (initializeGame r))).
  { intros r. unfold initializeGame.
    destruct (cardPairs FLAVOURS r) as [pairs r1] eqn:Hpairs.
    pose proof (Hperm pairs r1) as Hp.
    destruct (shuffleArray pairs r1) as [shuffled r2]. simpl in *.
    destruct (cardPairs_spec _ _ _ _ Hpairs) as [Hfl Hdown].
    assert (Hpf : Permutation (map flavour pairs) (map flavour shuffled))
      by now apply Permutation_map.
    constructor; simpl; try reflexivity.
    - rewrite <- (Permutation_length Hp), <- (length_map flavour), Hfl.
      rewrite length_doubled, Hsix. reflexivity.
    - intros emoji Hin.
      rewrite <- (proj1 (Permutation_count_occ string_dec _ _) Hpf).
      rewrite Hfl. now apply count_doubled.
    - intros card Hin. apply in_doubled. rewrite <- Hfl.
      apply Permutation_in with (map flavour shuffled);
        [now apply Permutation_sym | now apply in_map].
    - intros card Hin. rewrite Forall_forall in Hdown. apply Hdown.
      apply Permutation_in with shuffled; [now apply Permutation_sym | exact Hin]. }
  assert (Hquiet : forall gs, FreshSession gs ->
                              applyQueue (endConditionEffect gs) gs = gs).
  { intros gs [Hcount _ _ Hdown _ Hatt Hst _].
    unfold endConditionEffect. rewrite Hst, Hatt.
    destruct (cards gs) as [|card rest]; [discriminate|].
    destruct (Hdown card (or_introl eq_refl)) as [_ Hm].
    simpl. rewrite Hm. simpl.
    rewrite MAX_ATTEMPTS_eq. reflexivity. }
  split; [exact Hfresh|]. split.
  - intros r. specialize (Hfresh r).
    destruct (initializeGame r) as [gs r'] eqn:Hinit. simpl in Hfresh.
    eexists. split; [apply (mount_result r r' gs Hinit)|].
    simpl. rewrite (Hquiet gs Hfresh). now split.
  - intros w. specialize (Hfresh (rand w)).
    destruct (initializeGame (rand w)) as [gs r'] eqn:Hinit. simpl in Hfresh.
    eexists. split; [apply (restart_result w gs r' Hinit)|].
    simpl. rewrite (Hquiet gs Hfresh). now split.
Qed.

(** ** Every event, exactly *)

Lemma expectedStatus_playing (gs : GameState) :
  expectedStatus gs = playing ->
  forallb isMatched (cards gs) = false /\ attempts gs < MAX_ATTEMPTS.
Proof.
  unfold expectedStatus.
  destruct (forallb isMatched (cards gs)); [discriminate|].
  destruct (MAX_ATTEMPTS <=? attempts gs) eqn:E; [discriminate|].
  intros _. split; [reflexivity | now apply Nat.leb_gt].
Qed.

(** The first card of a pair is clicked: one render, no effect has
    anything to do. *)
Lemma click_first (w : World) (cardId : Id) (card : Card) :
  gameStatus (gameState w) = playing ->
  isChecking (gameState w) = false ->
  selectedCards (gameState w) = [] ->
  attempts (gameState w) < MAX_ATTEMPTS ->
  findCard cardId (cards (gameState w)) = Some card ->
  isFlipped card = false ->
  isMatched card = false ->
  step w (Click cardId) =
  Settled {| gameState :=
               {| cards := map (flipOne cardId) (cards (gameState w));
                  selectedCards := [cardId];
                  attempts := attempts (gameState w);
                  gameStatus := playing;
                  isChecking := false |};
             timers := timers w;
             rand := rand w |}.
Proof.
  intros Hst Hchk Hsel Hatt Hc Hfl Hma.
  destruct w as [gs ts r]. destruct gs as [cs sel att st chk].
  simpl in *. subst st chk sel.
  unfold step, handleCardClick. simpl. rewrite Hc, Hfl, Hma. simpl.
  unfold flipCard, NESTED_UPDATE_LIMIT. rewrite settle_cons.
  unfold rerender, runEffects, endDepsChanged, matchDepsChanged. simpl.
  unfold endConditionEffect, matchEffect. simpl.
  rewrite (forallb_isMatched_map (flipOne cardId)) by apply flipOne_isMatched.
  destruct (findCard_Some _ _ _ Hc) as [Hin _].
  rewrite (forallb_isMatched_false cs card Hin Hma).
  apply Nat.leb_gt in Hatt. rewrite Hatt. simpl.
  now rewrite settle_nil, !app_nil_r.
Qed.

(** The oldest timer fires, whatever the status. *)
Lemma timeout_result (w : World) (a b : Id) (rest : list Timer) :
  gameStatus (gameState w) = expectedStatus (gameState w) ->
  timers w = (a, b) :: rest ->
  step w Timeout =
  Settled {| gameState :=
               {| cards := map (unflipTwo a b) (cards (gameState w));
                  selectedCards := [];
                  attempts := attempts (gameState w);
                  gameStatus := gameStatus (gameState w);
                  isChecking := false |};
             timers := rest;
             rand := rand w |}.
Proof.
  intros Hst Hts.
  assert (Hd : gameStatus (gameState w) = playing \/
               gameStatus (gameState w) <> playing).
  { destruct (gameStatus (gameState w)); [left | right | right];
      congruence. }
  destruct Hd as [E | E]; [| now apply timeout_when_over].
  rewrite E in Hst. symmetry in Hst. apply expectedStatus_playing in Hst.
  destruct Hst as [Hall Hatt].
  unfold step. rewrite Hts.
  unfold NESTED_UPDATE_LIMIT. rewrite settle_cons.
  unfold rerender, runEffects, endDepsChanged, matchDepsChanged,
    endConditionEffect, matchEffect. simpl.
  rewrite E.
  rewrite (forallb_isMatched_map (unflipTwo a b))
    by apply unflipTwo_isMatched.
  rewrite Hall. apply Nat.leb_gt in Hatt. rewrite Hatt. simpl.
  now rewrite settle_nil, app_nil_r.
Qed.

(** ** Coherence of the settled hook *)

Lemma fresh_Coherent (gs : GameState) (ts : list Timer) (r : Rand) :
  selectedCards gs = [] ->
  attempts gs = 0 ->
  gameStatus gs = playing ->
  isChecking gs = false ->
  Coherent {| gameState := applyQueue (endConditionEffect gs) gs;
              timers := ts;
              rand := r |}.
Proof.
  intros Hsel Hatt Hst Hchk.
  destruct gs as [cs sel att st chk]. simpl in *. subst sel att st chk.
  assert (Hzero : (MAX_ATTEMPTS <=? 0) = false)
    by (rewrite MAX_ATTEMPTS_eq; reflexivity).
  unfold endConditionEffect. simpl. rewrite Hzero.
  destruct (forallb isMatched cs) eqn:Hall;
    constructor; unfold expectedStatus, selectedFound; simpl;
    rewrite ?Hall, ?Hzero; try reflexivity; try discriminate;
    try apply Nat.le_0_l; intros _; apply Nat.le_0_l.
Qed.

(** Every event settles and keeps the hook coherent; without a restart it
    also keeps the timers down to the one of the selected pair. *)
Lemma step_Coherent (w : World) (e : Event) :
  Coherent w ->
  exists w', step w e = Settled w' /\ Coherent w' /\
             (e <> Restart -> OneTimer w -> OneTimer w').
Proof.
  intros Hcoh. pose proof Hcoh as [Hfound Hbound Hstatus Hchecking Hidle].
  destruct e as [cardId| |].
  - (* Click *)
    assert (Hsame : exists w', Settled w = Settled w' /\ Coherent w' /\
              (Click cardId <> Restart -> OneTimer w -> OneTimer w')).
    { exists w. auto. }
    destruct (handleCardClick_cases (gameState w) cardId)
      as [H | [H | (_ & Hst & Hchk & Hlen & card & Hc & Hfl & Hma)]].
    { unfold step. rewrite H. exact Hsame. }
    { unfold step. rewrite H, settle_nil. exact Hsame. }
    rewrite Hst in Hstatus. symmetry in Hstatus.
    apply expectedStatus_playing in Hstatus. destruct Hstatus as [Hall Hatt].
    assert (Hleb : (MAX_ATTEMPTS <=? attempts (gameState w)) = false)
      by now apply Nat.leb_gt.
    destruct (findCard_Some _ _ _ Hc) as [Hin _].
    destruct (selectedCards (gameState w)) as [|a [|a2 sel]] eqn:Hsel;
      [| | simpl in Hlen; lia].
    + (* first card *)
      rewrite (click_first w cardId card Hst Hchk Hsel Hatt Hc Hfl Hma).
      eexists. split; [reflexivity|]. split.
      * constructor; unfold expectedStatus, selectedFound; simpl;
          rewrite ?(findCard_map (flipOne cardId)) by apply flipOne_id;
          rewrite ?(forallb_isMatched_map (flipOne cardId))
            by apply flipOne_isMatched;
          rewrite ?Hc, ?Hall, ?Hleb; simpl;
          try reflexivity; try discriminate; try assumption;
          try (intros _; apply Nat.le_refl).
      * intros _ [[Hts _] | (x & y & _ & _ & Hk)]; [|congruence].
        left. now split.
    + (* second card *)
      assert (Ha : exists ca, findCard a (cards (gameState w)) = Some ca).
      { unfold selectedFound in Hfound. rewrite Hsel in Hfound.
        simpl in Hfound.
        destruct (findCard a (cards (gameState w))) as [ca|];
          [now exists ca | discriminate]. }
      destruct Ha as [ca Ha].
      destruct (String.eqb (flavour ca) (flavour card)) eqn:Hfv.
      * apply String.eqb_eq in Hfv.
        rewrite (click_second_match w a cardId ca card
                   Hst Hchk Hsel Hatt Ha Hc Hfl Hma Hfv).
        eexists. split; [reflexivity|]. split.
        -- constructor; unfold expectedStatus, selectedFound; simpl;
             try reflexivity; try discriminate; try lia;
             try (intros _; apply Nat.le_0_l).
        -- intros _ [[Hts _] | (x & y & _ & _ & Hk)]; [|congruence].
           left. now split.
      * apply String.eqb_neq in Hfv.
        rewrite (click_second_mismatch w a cardId ca card
                   Hst Hchk Hsel Hatt Ha Hc Hfl Hma Hfv).
        eexists. split; [reflexivity|]. split.
        -- constructor; unfold expectedStatus, selectedFound; simpl;
             rewrite ?(findCard_map (flipOne cardId)) by apply flipOne_id;
             rewrite ?(forallb_isMatched_map (flipOne cardId))
               by apply flipOne_isMatched;
             rewrite ?Ha, ?Hc, ?Hall; simpl;
             try reflexivity; try discriminate; try lia;
             try (intros _; split; [reflexivity|];
                  destruct (timers w); discriminate).
        -- intros _ [[Hts _] | (x & y & _ & _ & Hk)]; [|congruence].
           right. exists a, cardId. simpl. rewrite Hts. auto.
  - (* Restart *)
    destruct (initializeGame (rand w)) as [gs r'] eqn:Hinit.
    rewrite (restart_result w gs r' Hinit).
    apply initializeGame_fields in Hinit.
    destruct Hinit as (Hsel & Hatt & Hst & Hchk).
    eexists. split; [reflexivity|]. split.
    + now apply fresh_Coherent.
    + congruence.
  - (* Timeout *)
    destruct (timers w) as [|[a b] rest] eqn:Hts.
    + exists w. unfold step. rewrite Hts. auto.
    + rewrite (timeout_result w a b rest Hstatus Hts).
      eexists. split; [reflexivity|]. split.
      * constructor; unfold selectedFound; simpl;
          try reflexivity; try discriminate; try assumption.
        -- unfold expectedStatus in *. simpl.
           now rewrite (forallb_isMatched_map (unflipTwo a b))
             by apply unflipTwo_isMatched.
        -- intros _. apply Nat.le_0_l.
      * intros _ [[Hnil _] | (x & y & Hone & _ & _)]; [congruence|].
        rewrite Hts in Hone. injection Hone as _ _ ->. left. now split.
Qed.

Lemma mount_Coherent (r : Rand) :
  exists w, mount r = Settled w /\ Coherent w /\ OneTimer w.
Proof.
  destruct (initializeGame r) as [gs r'] eqn:Hinit.
  rewrite (mount_result r r' gs Hinit).
  apply initializeGame_fields in Hinit.
  destruct Hinit as (Hsel & Hatt & Hst & Hchk).
  eexists. split; [reflexivity|]. split.
  - now apply fresh_Coherent.
  - left. simpl. split; [reflexivity|].
    unfold endConditionEffect. rewrite Hst.
    destruct (forallb isMatched (cards gs)); [exact Hchk|].
    destruct (MAX_ATTEMPTS <=? attempts gs); exact Hchk.
Qed.

Lemma run_Coherent (es : list Event) (w : World) :
  Coherent w ->
  exists w', run w es = Settled w' /\ Coherent w' /\
             (Forall (fun e => e <> Restart) es -> OneTimer w -> OneTimer w').
Proof.
  revert w. induction es as [|e es IH]; intros w Hcoh.
  - exists w. auto.
  - destruct (step_Coherent w e Hcoh) as (w1 & Hs & Hc1 & Ht1).
    destruct (IH w1 Hc1) as (w' & Hr & Hc' & Ht').
    exists w'. simpl. rewrite Hs. split; [exact Hr|]. split; [exact Hc'|].
    intros Hall Hone. inversion Hall; subst. auto.
Qed.

(** Every sequence of events settles in a coherent world. *)
Lemma reachable_coherent (r : Rand) (es : list Event) :
  exists w, play r es = Settled w /\ Coherent w /\
            (Forall (fun e => e <> Restart) es -> OneTimer w).
Proof.
  destruct (mount_Coherent r) as (w0 & Hm & Hc0 & Ht0).
  destruct (run_Coherent es w0 Hc0) as (w & Hr & Hc & Ht).
  exists w. unfold play. rewrite Hm. auto.
Qed.

Lemma unique_by_id (cs : list Card) (cardId : Id) (c c' : Card) :
  NoDup (map id cs) ->
  findCard cardId cs = Some c ->
  In c' cs -> id c' = cardId -> c' = c.
Proof.
  unfold findCard. induction cs as [|x cs IH]; simpl; [discriminate|].
  intros Hnd Hfind Hin Hid. apply NoDup_cons_iff in Hnd.
  destruct Hnd as [Hnot Hnd].
  destruct (String.eqb (id x) cardId) eqn:E.
  - injection Hfind as <-. destruct Hin as [<- | Hin]; [reflexivity|].
    apply String.eqb_eq in E. exfalso. apply Hnot.
    rewrite E, <- Hid. now apply in_map.
  - destruct Hin as [<- | Hin].
    + apply String.eqb_neq in E. contradiction.
    + now apply IH.
Qed.

(** Turning two face-down cards up and back down gives the board back. *)
Lemma flip_unflip (cs : list Card) (a b : Id) :
  (forall c, In c cs -> id c = a \/ id c = b -> isFlipped c = false) ->
  map (unflipTwo a b) (map (flipOne b) (map (flipOne a) cs)) = cs.
Proof.
  intros Hdown. rewrite !map_map. rewrite <- (map_id cs) at 2.
  apply map_ext_in. intros c Hin. specialize (Hdown c Hin).
  unfold unflipTwo. rewrite !flipOne_id. unfold flipOne.
  destruct c as [i f fl m]. simpl in *.
  destruct (String.eqb i a) eqn:Ea; simpl.
  - apply String.eqb_eq in Ea.
    rewrite (Hdown (or_introl Ea)).
    destruct (String.eqb i b); reflexivity.
  - destruct (String.eqb i b) eqn:Eb; simpl; [|reflexivity].
    apply String.eqb_eq in Eb. now rewrite (Hdown (or_intror Eb)).
Qed.

(** A relation between states that every update of an allowed kind
    respects holds between the world before and the world after. *)
Lemma settle_relates (R : GameState -> GameState -> Prop)
  (allowed : Update -> bool) :
  allowed BeginCheck = true ->
  (forall a b, allowed (MarkMatched a b) = true) ->
  (forall s, allowed (SetStatus s) = true) ->
  (forall gs, R gs gs) ->
  (forall gs1 gs2 gs3, R gs1 gs2 -> R gs2 gs3 -> R gs1 gs3) ->
  (forall u gs, allowed u = true -> R gs (applyUpdate u gs)) ->
  forall fuel w w' queue,
    forallb allowed queue = true ->
    settle fuel w queue = Settled w' ->
    R (gameState w) (gameState w').
Proof.
  intros Hbegin Hmark Hset Hrefl Htrans Hupd fuel w w' queue Hq Hs.
  assert (Hqueue : forall q gs, forallb allowed q = true ->
                                R gs (applyQueue q gs)).
  { induction q as [|u q IH]; intros gs Hall; [apply Hrefl|].
    simpl in Hall. apply andb_prop in Hall. destruct Hall as [Hu Hall].
    apply Htrans with (applyUpdate u gs); [now apply Hupd | now apply IH]. }
  apply (settle_invariant
           (fun w1 q1 => forallb allowed q1 = true /\
                         R (gameState w) (gameState w1)))
    in Hs.
  - apply Hs.
  - intros w1 q1 w2 q2 [Hq1 HR] Hr. split.
    + apply round_any in Hr.
      destruct Hr as (qa & qb & -> &
                      [-> | (s & _ & ->)] & [-> | [-> | (a & b & ->)]]);
        simpl; rewrite ?Hbegin, ?Hmark, ?Hset; reflexivity.
    + apply rerender_inv in Hr. destruct Hr as (-> & _).
      eapply Htrans; [exact HR|]. now apply Hqueue.
  - split; [exact Hq | apply Hrefl].
Qed.

Lemma Forall2_map_self (P : Card -> Card -> Prop) (f : Card -> Card)
  (cs : list Card) :
  (forall c, P c (f c)) -> Forall2 P cs (map f cs).
Proof.
  intros H. induction cs as [|c cs IH]; simpl; constructor; auto.
Qed.

Lemma Forall2_same (P : Card -> Card -> Prop) (cs : list Card) :
  (forall c, P c c) -> Forall2 P cs cs.
Proof.
  intros H. induction cs as [|c cs IH]; constructor; auto.
Qed.

Lemma Forall2_compose (P : Card -> Card -> Prop) :
  (forall c1 c2 c3, P c1 c2 -> P c2 c3 -> P c1 c3) ->
  forall l1 l2 l3 : list Card,
    Forall2 P l1 l2 -> Forall2 P l2 l3 -> Forall2 P l1 l3.
Proof.
  intros Htrans l1 l2 l3 H12. revert l3.
  induction H12 as [|x y l1 l2 Hxy H12 IH]; intros l3 H23;
    inversion H23; subst; constructor; eauto.
Qed.

(** A click or a timer relates the cards before and after by every
    relation that the updates it can cause respect. *)
Lemma step_relates (P : Card -> Card -> Prop) (allowed : Update -> bool)
  (w : World) (e : Event) :
  allowed BeginCheck = true ->
  (forall a b, allowed (MarkMatched a b) = true) ->
  (forall s, allowed (SetStatus s) = true) ->
  (forall c, P c c) ->
  (forall c1 c2 c3, P c1 c2 -> P c2 c3 -> P c1 c3) ->
  (forall u gs, allowed u = true ->
                CardsRelated P gs (applyUpdate u gs)) ->
  match e with
  | Click cardId => allowed (FlipCard cardId) = true
  | Timeout => forall a b, allowed (FlipBack a b) = true
  | Restart => False
  end ->
  selectedFound (gameState w) = true ->
  exists w', step w e = Settled w' /\
             CardsRelated P (gameState w) (gameState w').
Proof.
  intros Hbegin Hmark Hset Hrefl Htrans Hupd He Hf.
  assert (Hrefl' : forall gs, CardsRelated P gs gs).
  { intros gs. now apply Forall2_same. }
  assert (Htrans' : forall g1 g2 g3, CardsRelated P g1 g2 ->
                      CardsRelated P g2 g3 -> CardsRelated P g1 g3).
  { intros g1 g2 g3. now apply Forall2_compose. }
  destruct e as [cardId| |]; [| contradiction |]; unfold step.
  - destruct (handleCardClick_cases (gameState w) cardId)
      as [-> | [-> | (-> & _ & _ & _ & card & Hc & _)]].
    + exists w. split; [reflexivity | apply Hrefl'].
    + exists w. split; [apply settle_nil | apply Hrefl'].
    + destruct (settle_total 47 w [FlipCard cardId]) as [w' Hs].
      { apply rerender_returns. now apply selectedFound_flip with card. }
      exists w'. split; [exact Hs|].
      apply (settle_relates (CardsRelated P) allowed Hbegin Hmark Hset
               Hrefl' Htrans' Hupd _ _ _ _) in Hs; [exact Hs|].
      simpl. now rewrite He.
  - destruct (timers w) as [|[a b] rest].
    + exists w. split; [reflexivity | apply Hrefl'].
    + destruct (settle_total 47
                  {| gameState := gameState w; timers := rest;
                     rand := rand w |} [FlipBack a b]) as [w' Hs].
      { apply rerender_returns. reflexivity. }
      exists w'. split; [exact Hs|].
      apply (settle_relates (CardsRelated P) allowed Hbegin Hmark Hset
               Hrefl' Htrans' Hupd _ _ _ _) in Hs; [exact Hs|].
      simpl. now rewrite He.
Qed.

(** ** Further properties of the hook *)

(** X1: in every settled world the status is the one the board and the
    count of attempts call for: [won] exactly when every card is matched,
    [lost] exactly when some card is unmatched and the fifteen attempts are
    used up, [playing] exactly when some card is unmatched and attempts
    remain. *)
Theorem status_reflects_the_board (r : Rand) (es : list Event) :
  exists w,
    play r es = Settled w /\
    (gameStatus (gameState w) = won <->
     forallb isMatched (cards (gameState w)) = true) /\
    (gameStatus (gameState w) = lost <->
     forallb isMatched (cards (gameState w)) = false /\
     attempts (gameState w) = 15) /\
    (gameStatus (gameState w) = playing <->
     forallb isMatched (cards (gameState w)) = false /\
     attempts (gameState w) < 15).
Proof.
  destruct (reachable_coherent r es) as (w & Hplay & [_ Hb Hst _ _] & _).
  exists w. split; [exact Hplay|].
  rewrite <- MAX_ATTEMPTS_eq. rewrite Hst. unfold expectedStatus.
  destruct (forallb isMatched (cards (gameState w))).
  - intuition (try discriminate; try lia).
  - destruct (MAX_ATTEMPTS <=? attempts (gameState w)) eqn:E.
    + apply Nat.leb_le in E. intuition (try discriminate; try lia).
    + apply Nat.leb_gt in E. intuition (try discriminate; try lia).
Qed.

(** X2: in every settled world at most two cards are selected, every
    selected identifier is the identifier of a card, and [isChecking] is set
    exactly when two cards are selected, in which case a flip-back timer is
    pending. *)
Theorem selection_is_bounded (r : Rand) (es : list Event) :
  exists w,
    play r es = Settled w /\
    length (selectedCards (gameState w)) <= 2 /\
    (forall cardId, In cardId (selectedCards (gameState w)) ->
                    In cardId (map id (cards (gameState w)))) /\
    (isChecking (gameState w) = true <->
     length (selectedCards (gameState w)) = 2) /\
    (isChecking (gameState w) = true -> timers w <> []).
Proof.
  destruct (reachable_coherent r es) as (w & Hplay & [Hf _ _ Hc Hi] & _).
  exists w. split; [exact Hplay|].
  destruct (isChecking (gameState w)) eqn:Hchk.
  - destruct (Hc eq_refl) as [Hlen Hts]. repeat split; auto; try lia.
    intros cardId Hin. unfold selectedFound in Hf.
    rewrite forallb_forall in Hf. specialize (Hf cardId Hin).
    destruct (findCard cardId (cards (gameState w))) as [c|] eqn:E;
      [|discriminate].
    apply findCard_Some in E. destruct E as [Hin' <-]. now apply in_map.
  - specialize (Hi eq_refl). repeat split; try lia; try discriminate.
    intros cardId Hin. unfold selectedFound in Hf.
    rewrite forallb_forall in Hf. specialize (Hf cardId Hin).
    destruct (findCard cardId (cards (gameState w))) as [c|] eqn:E;
      [|discriminate].
    apply findCard_Some in E. destruct E as [Hin' <-]. now apply in_map.
Qed.

(** X3: [isChecking] never stays set for good: in every settled world in
    which it is set a timer is pending, and when the oldest pending timer
    fires it clears [isChecking] and the selection and leaves the attempts
    and the status as they are. *)
Theorem checking_ends_with_the_timer
  (r : Rand) (es : list Event) (w : World) :
  play r es = Settled w ->
  isChecking (gameState w) = true ->
  exists a b rest w',
    timers w = (a, b) :: rest /\
    step w Timeout = Settled w' /\
    isChecking (gameState w') = false /\
    selectedCards (gameState w') = [] /\
    attempts (gameState w') = attempts (gameState w) /\
    gameStatus (gameState w') = gameStatus (gameState w) /\
    timers w' = rest.
Proof.
  intros Hplay Hchk.
  destruct (reachable_coherent r es) as (w0 & Hplay0 & Hcoh & _).
  rewrite Hplay in Hplay0. injection Hplay0 as <-.
  destruct Hcoh as [_ _ Hst Hc _].
  destruct (Hc Hchk) as [_ Hts].
  destruct (timers w) as [|[a b] rest] eqn:E; [congruence|].
  exists a, b, rest. eexists. split; [reflexivity|].
  split; [apply (timeout_result w a b rest Hst E)|].
  repeat split.
Qed.


(** X5: a miss is undone completely.  In a settled world where the game is
    being played, nothing is selected and no timer is pending, with cards
    of distinct identifiers: clicking two face-down, unmatched cards of
    different flavours and letting the timer fire gives back the very same
    board, an empty selection and [isChecking] false; only the count of
    attempts has grown by one (and the game is lost if that was the last
    attempt). *)
Theorem miss_restores_the_board
  (r : Rand) (es : list Event) (w : World) (a b : Id) (ca cb : Card) :
  play r es = Settled w ->
  gameStatus (gameState w) = playing ->
  isChecking (gameState w) = false ->
  selectedCards (gameState w) = [] ->
  timers w = [] ->
  NoDup (map id (cards (gameState w))) ->
  findCard a (cards (gameState w)) = Some ca ->
  findCard b (cards (gameState w)) = Some cb ->
  isFlipped ca = false -> isMatched ca = false ->
  isFlipped cb = false -> isMatched cb = false ->
  flavour ca <> flavour cb ->
  run w [Click a; Click b; Timeout] =
  Settled {| gameState :=
               {| cards := cards (gameState w);
                  selectedCards := [];
                  attempts := attempts (gameState w) + 1;
                  gameStatus :=
                    if MAX_ATTEMPTS <=? attempts (gameState w) + 1
                    then lost else playing;
                  isChecking := false |};
             timers := [];
             rand := rand w |}.
Proof.
  intros Hplay Hst Hchk Hsel Hts Hnd Ha Hb Hfa Hma Hfb Hmb Hfv.
  destruct (reachable_coherent r es) as (w0 & Hplay0 & Hcoh & _).
  rewrite Hplay in Hplay0. injection Hplay0 as <-.
  destruct Hcoh as [_ _ Hstatus _ _].
  rewrite Hst in Hstatus. symmetry in Hstatus.
  apply expectedStatus_playing in Hstatus. destruct Hstatus as [Hall Hatt].
  destruct (findCard_Some _ _ _ Ha) as [Hina Hida].
  destruct (findCard_Some _ _ _ Hb) as [Hinb Hidb].
  assert (Hab : a <> b).
  { intros ->. rewrite Ha in Hb. injection Hb as ->. now apply Hfv. }
  assert (Hcb : flipOne a cb = cb).
  { unfold flipOne. rewrite Hidb.
    apply not_eq_sym in Hab. apply String.eqb_neq in Hab. now rewrite Hab. }
  unfold run.
  rewrite (click_first w a ca Hst Hchk Hsel Hatt Ha Hfa Hma).
  erewrite click_second_mismatch with (a := a) (ca := flipOne a ca) (cb := cb);
    simpl; try reflexivity; try assumption.
  2:{ rewrite (findCard_map (flipOne a)) by apply flipOne_id.
      now rewrite Ha. }
  2:{ rewrite (findCard_map (flipOne a)) by apply flipOne_id.
      rewrite Hb. simpl. now rewrite Hcb. }
  2:{ now rewrite flipOne_flavour. }
  rewrite Hts. simpl app.
  rewrite timeout_result with (a := a) (b := b) (rest := []); simpl;
    [| | reflexivity].
  - rewrite flip_unflip; [reflexivity|].
    intros c Hin [Hc | Hc].
    + now rewrite (unique_by_id _ _ _ _ Hnd Ha Hin Hc).
    + now rewrite (unique_by_id _ _ _ _ Hnd Hb Hin Hc).
  - unfold expectedStatus. simpl.
    rewrite !forallb_isMatched_map by apply flipOne_isMatched.
    now rewrite Hall.
Qed.

(** X6: apart from a restart, no event takes the match away from a card:
    after a click or a timer every card is at its place and is matched if
    it was matched before. *)
Theorem matched_cards_stay_matched (w : World) (e : Event) :
  e <> Restart ->
  selectedFound (gameState w) = true ->
  exists w',
    step w e = Settled w' /\
    Forall2 staysMatched (cards (gameState w)) (cards (gameState w')).
Proof.
  intros He Hf.
  apply (step_relates staysMatched (fun u => negb (isReplace u)));
    try reflexivity; try assumption.
  - intros c. now split.
  - intros c1 c2 c3 [Hi Hm] [Hi' Hm']. split; [congruence | auto].
  - intros u gs Hu. unfold CardsRelated.
    destruct u; simpl in *; try discriminate;
      first [apply Forall2_map_self | apply Forall2_same];
      intros c; unfold staysMatched;
      rewrite ?flipOne_id, ?matchTwo_id, ?unflipTwo_id,
        ?flipOne_isMatched, ?unflipTwo_isMatched; auto.
    split; [reflexivity|]. intros Hm. unfold matchTwo.
    destruct (String.eqb _ _ || String.eqb _ _); [reflexivity | exact Hm].
  - destruct e; [reflexivity | congruence | reflexivity].
Qed.

(** X7: a click never turns a card face down: after [handleCardClick] and
    the renders it causes every card is at its place and is face up if it
    was face up before. *)
Theorem clicks_never_turn_cards_down (w : World) (cardId : Id) :
  selectedFound (gameState w) = true ->
  exists w',
    step w (Click cardId) = Settled w' /\
    Forall2 staysFaceUp (cards (gameState w)) (cards (gameState w')).
Proof.
  intros Hf.
  apply (step_relates staysFaceUp
           (fun u => match u with
                     | FlipBack _ _ | Replace _ => false
                     | _ => true
                     end));
    try reflexivity; try assumption.
  - intros c. now split.
  - intros c1 c2 c3 [Hi Hm] [Hi' Hm']. split; [congruence | auto].
  - intros u gs Hu. unfold CardsRelated.
    destruct u; simpl in *; try discriminate;
      first [apply Forall2_map_self | apply Forall2_same];
      intros c; unfold staysFaceUp;
      rewrite ?flipOne_id, ?matchTwo_id; auto.
    + split; [reflexivity|]. intros Hfl. unfold flipOne.
      destruct (String.eqb _ _); [reflexivity | exact Hfl].
    + split; [reflexivity|]. intros Hfl. unfold matchTwo.
      destruct (String.eqb _ _ || String.eqb _ _); [exact Hfl | exact Hfl].
Qed.

(** X8: as long as the game is not restarted, at most one flip-back timer
    is pending; one is pending exactly while [isChecking] is set, and it is
    the timer of the two selected cards. *)
Theorem one_timer_without_restart (r : Rand) (es : list Event) :
  Forall (fun e => e <> Restart) es ->
  exists w,
    play r es = Settled w /\
    length (timers w) <= 1 /\
    (timers w <> [] <-> isChecking (gameState w) = true) /\
    (forall a b, In (a, b) (timers w) ->
                 selectedCards (gameState w) = [a; b]).
Proof.
  intros Hes.
  destruct (reachable_coherent r es) as (w & Hplay & _ & Hone).
  exists w. split; [exact Hplay|].
  destruct (Hone Hes) as [[Hts Hchk] | (a & b & Hts & Hsel & Hchk)];
    rewrite Hts, Hchk; simpl.
  - repeat split; auto; try discriminate; try contradiction.
  - repeat split; auto; try discriminate.
    intros a' b' [[= <- <-] | []]. exact Hsel.
Qed.

(** ** What the components render *)

Lemma findCard_In (cs : list Card) (card : Card) :
  In card cs -> exists card', findCard (id card) cs = Some card'.
Proof.
  unfold findCard. induction cs as [|c cs IH]; simpl; [intros []|].
  intros [-> | Hin].
  - rewrite String.eqb_refl. eauto.
  - destruct (String.eqb (id c) (id card)); eauto.
Qed.

Lemma handlers_GameBoard (cs : list Card) (st : GameStatus) :
  handlers (GameBoard cs st) =
  map (fun card => CardHandleClick (cardProps st card)) cs.
Proof.
  unfold GameBoard. simpl.
  induction cs as [|c cs IH]; simpl; [reflexivity|].
  rewrite IH. now destruct (isFlipped c).
Qed.

Lemma numbers_GameBoard (cs : list Card) (st : GameStatus) :
  numbers (GameBoard cs st) = [].
Proof.
  unfold GameBoard. simpl.
  induction cs as [|c cs IH]; simpl; [reflexivity|].
  rewrite IH. now destruct (isFlipped c).
Qed.

Lemma handlers_App (gs : GameState) :
  handlers (App gs) =
  map (fun card => CardHandleClick (cardProps (gameStatus gs) card))
    (cards gs)
  ++ (if GameStatus_eqb (gameStatus gs) playing then [] else [OnRestart]).
Proof.
  unfold App. cbn [handlers flat_map app].
  rewrite handlers_GameBoard.
  unfold GameStats, GameModal.
  destruct (gameStatus gs); simpl; now rewrite ?app_nil_r.
Qed.

(** X9: the clicks that come from the board never throw.  Every card
    handler of the rendered application belongs to a card of the state;
    when [handleClick] of that card passes the click on (whatever
    [isFlipping] is), the game is being played, the identifier it passes is
    one of a card, and [handleCardClick] does not throw on it; with
    distinct identifiers, and unless a check is running or two cards are
    selected, [handleCardClick] flips that card. *)
Theorem board_clicks_never_throw
  (gs : GameState) (props : CardProps.t) (isFlipping : bool) (cardId : Id) :
  In (CardHandleClick props) (handlers (App gs)) ->
  fst (handleClick isFlipping props) = Some cardId ->
  gameStatus gs = playing /\
  In cardId (map id (cards gs)) /\
  handleCardClick gs cardId <> TypeError /\
  (NoDup (map id (cards gs)) ->
   isChecking gs = false ->
   length (selectedCards gs) < 2 ->
   handleCardClick gs cardId = Return (flipCard cardId)).
Proof.
  intros Hin Hclick. rewrite handlers_App in Hin.
  apply in_app_or in Hin. destruct Hin as [Hin | Hin].
  2:{ destruct (GameStatus_eqb (gameStatus gs) playing);
        [destruct Hin | destruct Hin as [H | []]; discriminate H]. }
  apply in_map_iff in Hin. destruct Hin as (card & [= <-] & Hcard).
  unfold handleClick, cardProps in Hclick. simpl in Hclick.
  destruct isFlipping; [discriminate|].
  destruct (GameStatus_eqb (gameStatus gs) playing) eqn:Hst;
    [|discriminate]. simpl in Hclick.
  destruct (isFlipped card) eqn:Hfl; [discriminate|].
  destruct (isMatched card) eqn:Hma; [discriminate|].
  simpl in Hclick. injection Hclick as <-.
  apply GameStatus_eqb_eq in Hst.
  destruct (findCard_In _ _ Hcard) as [card' Hfind].
  split; [exact Hst|]. split; [now apply in_map|]. split.
  - unfold handleCardClick. rewrite Hfind.
    destruct (isChecking gs || (2 <=? length (selectedCards gs))
              || negb (GameStatus_eqb (gameStatus gs) playing));
      [discriminate|].
    destruct (isFlipped card' || isMatched card'); discriminate.
  - intros Hnd Hchk Hlen.
    assert (card = card')
      by exact (unique_by_id _ _ _ _ Hnd Hfind Hcard eq_refl).
    subst card'.
    unfold handleCardClick. rewrite Hfind, Hchk, Hst, Hfl, Hma.
    apply Nat.leb_gt in Hlen. now rewrite Hlen.
Qed.

(** X10: the board shows the flavours of the face-up cards and nothing
    else: the strings it renders are the flavours of the cards with
    [isFlipped] set, in the order of the board. *)
Theorem board_shows_face_up_flavours (cs : list Card) (st : GameStatus) :
  texts (GameBoard cs st) = map flavour (filter isFlipped cs).
Proof.
  unfold GameBoard. simpl.
  induction cs as [|c cs IH]; simpl; [reflexivity|].
  rewrite IH. now destruct (isFlipped c).
Qed.

(** X11: the numbers the application displays are the attempts, the limit
    of 15 and the attempts that remain, and in every settled world the
    remaining attempts lie between 0 and 15. *)
Theorem displayed_numbers_in_range (r : Rand) (es : list Event) :
  exists w,
    play r es = Settled w /\
    numbers (App (gameState w)) =
      [Z.of_nat (attempts (gameState w)); 15%Z;
       (15 - Z.of_nat (attempts (gameState w)))%Z] /\
    (0 <= 15 - Z.of_nat (attempts (gameState w)) <= 15)%Z.
Proof.
  destruct (reachable_coherent r es) as (w & Hplay & [_ Hb _ _ _] & _).
  exists w. split; [exact Hplay|]. split.
  - unfold App. cbn [numbers flat_map app].
    rewrite numbers_GameBoard. rewrite MAX_ATTEMPTS_eq.
    unfold GameStats, GameModal.
    destruct (gameStatus (gameState w)); reflexivity.
  - rewrite MAX_ATTEMPTS_eq in Hb. lia.
Qed.


(** X13: what can be clicked.  The rendered application has one click
    handler per card of the state and, besides, the restart button exactly
    when the game is over. *)
Theorem restart_offered_when_over (gs : GameState) :
  (In OnRestart (handlers (App gs)) <-> gameStatus gs <> playing) /\
  length (handlers (App gs)) =
  length (cards gs) + (if GameStatus_eqb (gameStatus gs) playing then 0 else 1).
Proof.
  rewrite handlers_App. split.
  - rewrite in_app_iff, in_map_iff. split.
    + intros [(c & H & _) | H]; [discriminate H|].
      destruct (gameStatus gs); [destruct H | discriminate ..].
    + intros H. right.
      destruct (gameStatus gs); [congruence | now left ..].
  - rewrite length_app, length_map.
    now destruct (GameStatus_eqb (gameStatus gs) playing).
Qed.

(** ** Matches and attempts *)

Lemma count_id_le_1 (cs : list Card) (a : Id) :
  NoDup (map id cs) ->
  length (filter (fun c => String.eqb (id c) a) cs) <= 1.
Proof.
  induction cs as [|c cs IH]; simpl; intros Hnd; [lia|].
  apply NoDup_cons_iff in Hnd. destruct Hnd as [Hnot Hnd].
  destruct (String.eqb (id c) a) eqn:E; [|now apply IH].
  apply String.eqb_eq in E. simpl.
  replace (filter (fun c0 => String.eqb (id c0) a) cs) with (@nil Card);
    [simpl; lia|].
  symmetry. clear IH Hnd. induction cs as [|x cs IH]; simpl; [reflexivity|].
  destruct (String.eqb (id x) a) eqn:Ex.
  - apply String.eqb_eq in Ex. exfalso. apply Hnot. left. congruence.
  - apply IH. intros H. apply Hnot. now right.
Qed.

Lemma matchTwo_count (cs : list Card) (a b : Id) :
  NoDup (map id cs) ->
  length (filter isMatched (map (matchTwo a b) cs))
  <= length (filter isMatched cs) + 2.
Proof.
  intros Hnd.
  pose proof (count_id_le_1 cs a Hnd) as Ha.
  pose proof (count_id_le_1 cs b Hnd) as Hb.
  assert (H : length (filter isMatched (map (matchTwo a b) cs))
              <= length (filter isMatched cs)
                 + length (filter (fun c => String.eqb (id c) a) cs)
                 + length (filter (fun c => String.eqb (id c) b) cs)).
  { clear. induction cs as [|c cs IH]; simpl; [lia|].
    unfold matchTwo at 1.
    destruct (String.eqb (id c) a); destruct (String.eqb (id c) b);
      destruct (isMatched c) eqn:Hm; simpl; rewrite ?Hm; simpl; lia. }
  lia.
Qed.

Lemma matchedCount_map (f : Card -> Card) (cs : list Card) :
  (forall c, isMatched (f c) = isMatched c) ->
  length (filter isMatched (map f cs)) = length (filter isMatched cs).
Proof.
  intros Hf. induction cs as [|c cs IH]; simpl; [reflexivity|].
  rewrite Hf. destruct (isMatched c); simpl; now rewrite IH.
Qed.

Lemma PaidFor_refl gs : PaidFor gs gs.
Proof. unfold PaidFor. split; [reflexivity | lia]. Qed.

Lemma PaidFor_trans gs1 gs2 gs3 :
  PaidFor gs1 gs2 -> PaidFor gs2 gs3 -> PaidFor gs1 gs3.
Proof.
  intros [Hi Hp] [Hi' Hp']. split; [congruence | lia].
Qed.

(** What the effects queue in one flush is paid for: a match comes with
    the attempt counted before it. *)
Lemma effectShaped_PaidFor (queue : list Update) (gs : GameState) :
  effectShaped queue ->
  NoDup (map id (cards gs)) ->
  PaidFor gs (applyQueue queue gs).
Proof.
  intros (q1 & q2 & -> & Hq1 & Hq2) Hnd.
  pose proof (matchTwo_count (cards gs)) as Hcount.
  destruct Hq1 as [-> | (s & _ & ->)];
    destruct Hq2 as [-> | [-> | (a & b & ->)]];
    unfold PaidFor, applyQueue, matchedCount; simpl;
    (split; [rewrite ?map_map; try reflexivity;
             apply map_ext; intros c; apply matchTwo_id|]);
    try lia; specialize (Hcount a b Hnd); lia.
Qed.

(** A click or a timer is paid for. *)
Lemma step_PaidFor (w w' : World) (e : Event) :
  e <> Restart ->
  NoDup (map id (cards (gameState w))) ->
  step w e = Settled w' ->
  PaidFor (gameState w) (gameState w').
Proof.
  intros He Hnd Hstep.
  assert (Hsettle : forall w0 u,
             gameState w0 = gameState w ->
             (forall gs, PaidFor gs (applyUpdate u gs)) ->
             settle NESTED_UPDATE_LIMIT w0 [u] = Settled w' ->
             PaidFor (gameState w) (gameState w')).
  { intros w0 u Hw0 Hu Hs.
    apply (settle_invariant
             (fun w1 q1 => PaidFor (gameState w)
                             (applyQueue q1 (gameState w1))))
      in Hs; [exact Hs | | rewrite Hw0; apply Hu].
    intros w1 q1 w2 q2 HP Hr.
    pose proof (round_any _ _ _ _ Hr) as Hshape.
    apply rerender_inv in Hr. destruct Hr as (Hgs & _). rewrite Hgs.
    eapply PaidFor_trans; [exact HP|].
    apply effectShaped_PaidFor; [exact Hshape|].
    destruct HP as [Hids _]. now rewrite Hids. }
  destruct e as [cardId| |]; [| congruence |]; unfold step in Hstep.
  - destruct (handleCardClick_cases (gameState w) cardId)
      as [H | [H | (H & _)]]; rewrite H in Hstep.
    + injection Hstep as <-. apply PaidFor_refl.
    + rewrite settle_nil in Hstep. injection Hstep as <-. apply PaidFor_refl.
    + apply (Hsettle w (FlipCard cardId) eq_refl); [|exact Hstep].
      intros gs. unfold PaidFor, matchedCount. simpl. split.
      * rewrite map_map. apply map_ext. intros c. apply flipOne_id.
      * rewrite matchedCount_map by apply flipOne_isMatched. lia.
  - destruct (timers w) as [|[a b] rest].
    + injection Hstep as <-. apply PaidFor_refl.
    + apply (Hsettle {| gameState := gameState w; timers := rest;
                        rand := rand w |} (FlipBack a b) eq_refl);
        [|exact Hstep].
      intros gs. unfold PaidFor, matchedCount. simpl. split.
      * rewrite map_map. apply map_ext. intros c. apply unflipTwo_id.
      * rewrite matchedCount_map by apply unflipTwo_isMatched. lia.
Qed.

(** X14: matches are paid for with attempts.  From a settled world whose
    cards have distinct identifiers, along any clicks and timers (no
    restart) the number of matched cards grows by at most two per attempt
    counted; so a session that started with no match and no attempt never
    has more than twice as many matched cards as attempts. *)
Theorem matches_are_paid_for
  (r : Rand) (es0 es : list Event) (w : World) :
  play r es0 = Settled w ->
  NoDup (map id (cards (gameState w))) ->
  Forall (fun e => e <> Restart) es ->
  exists w',
    run w es = Settled w' /\
    matchedCount (gameState w') + 2 * attempts (gameState w)
      <= matchedCount (gameState w) + 2 * attempts (gameState w') /\
    (matchedCount (gameState w) = 0 -> attempts (gameState w) = 0 ->
     matchedCount (gameState w') <= 2 * attempts (gameState w')).
Proof.
  intros Hplay Hnd Hes.
  destruct (reachable_invariant r es0) as (w0 & Hplay0 & Hinv).
  rewrite Hplay in Hplay0. injection Hplay0 as <-.
  assert (H : exists w', run w es = Settled w' /\
                         PaidFor (gameState w) (gameState w')).
  { clear Hplay. revert w Hnd Hinv.
    induction es as [|e es IH]; intros w Hnd Hinv.
    - exists w. split; [reflexivity | apply PaidFor_refl].
    - inversion Hes as [|e' es' He Hes']; subst.
      destruct (step_Invariant w e Hinv) as (w1 & Hs & Hinv1 & _).
      pose proof (step_PaidFor w w1 e He Hnd Hs) as HP.
      assert (Hnd1 : NoDup (map id (cards (gameState w1))))
        by (destruct HP as [Hids _]; now rewrite Hids).
      destruct (IH Hes' w1 Hnd1 Hinv1) as (w' & Hr & HP').
      exists w'. simpl. rewrite Hs. split; [exact Hr|].
      now apply PaidFor_trans with (gameState w1). }
  destruct H as (w' & Hr & [_ HP]).
  exists w'. split; [exact Hr|]. split; [exact HP | lia].
Qed.

(** X15: the empty deck.  With a shuffle that permutes its argument,
    mounting the hook settles with no attempt counted and nothing selected;
    the game is won at once when [FLAVOURS] has no entry ([every] holds of
    the empty array) and is being played otherwise. *)
Theorem mount_status (r : Rand) :
  (forall cs r', Permutation cs (fst (shuffleArray cs r'))) ->
  exists w,
    mount r = Settled w /\
    attempts (gameState w) = 0 /\
    selectedCards (gameState w) = [] /\
    timers w = [] /\
    length (cards (gameState w)) = 2 * length FLAVOURS /\
    (gameStatus (gameState w) = won <-> FLAVOURS = []) /\
    (gameStatus (gameState w) = playing <-> FLAVOURS <> []).
Proof.
  intros Hperm.
  destruct (initializeGame r) as [gs r'] eqn:Hinit.
  rewrite (mount_result r r' gs Hinit).
  eexists. split; [reflexivity|]. simpl.
  unfold initializeGame in Hinit.
  destruct (cardPairs FLAVOURS r) as [pairs r1] eqn:Hpairs.
  pose proof (Hperm pairs r1) as Hp.
  destruct (shuffleArray pairs r1) as [shuffled r2]. simpl in Hp.
  injection Hinit as <- _.
  destruct (cardPairs_spec _ _ _ _ Hpairs) as [Hfl Hdown].
  assert (Hlen : length shuffled = 2 * length FLAVOURS).
  { rewrite <- (Permutation_length Hp), <- (length_map flavour), Hfl.
    apply length_doubled. }
  assert (Hzero : (MAX_ATTEMPTS <=? 0) = false)
    by (rewrite MAX_ATTEMPTS_eq; reflexivity).
  unfold endConditionEffect. simpl. rewrite Hzero.
  destruct shuffled as [|c shuffled]; simpl.
  - destruct FLAVOURS; [|discriminate Hlen].
    repeat split; auto; try discriminate; congruence.
  - assert (Hc : isMatched c = false).
    { rewrite Forall_forall in Hdown.
      apply (Hdown c).
      apply Permutation_in with (c :: shuffled);
        [now apply Permutation_sym | now left]. }
    rewrite Hc. simpl.
    destruct FLAVOURS; [discriminate Hlen|].
    repeat split; auto; try discriminate; congruence.
Qed.

End Hook.

Transparent MAX_ATTEMPTS.

Arguments Settled {Rand} w.
Arguments mkWorld {Rand}.
Arguments gameState {Rand} w.
Arguments timers {Rand} w.
Arguments rand {Rand} w.

(** ** The hook in the concrete environment *)

Local Open Scope string_scope.
Local Open Scope list_scope.

Definition sampleStep : World nat -> Event -> Outcome nat :=
  step nat sampleGenerateId sampleShuffle sampleFlavours.

Definition samplePlay : list Event -> Outcome nat :=
  play nat sampleGenerateId sampleShuffle sampleFlavours 0.

(** The world in which a sequence of events settles. *)
Definition sampleWorld (es : list Event) : World nat :=
  match samplePlay es with
  | Settled w => w
  | _ => mkWorld (mkGameState [] [] 0 playing false) [] 0
  end.

(** Fourteen times the mismatching pair "a" (chocolate) and "c" (vanilla),
    each time turned back by its timer. *)
Definition fourteenMisses : list Event :=
  concat (repeat [Click "a"; Click "c"; Timeout] 14).

(** Nine misses, then five pairs found: one pair and one attempt are left. *)
Definition beforeLastPair : list Event :=
  concat (repeat [Click "a"; Click "c"; Timeout] 9)
  ++ [Click "a"; Click "b"; Click "c"; Click "d"; Click "e"; Click "f";
      Click "g"; Click "h"; Click "i"; Click "j"; Click "k"].

(** ** The claims at concrete inputs *)

(** C1: [restartGame] does not cancel the pending flip-back.  The pair "a",
    "c" mismatches and schedules its timer; after the restart and a click on
    card "m" of the new session the timer is still pending, and when it
    fires it empties the selection of the new session although "m" stays
    face up. *)
Theorem restart_keeps_pending_reversion :
  exists w1 w2 : World nat,
    samplePlay [Click "a"; Click "c"; Restart; Click "m"] = Settled w1 /\
    timers w1 = [("a", "c")] /\
    selectedCards (gameState w1) = ["m"] /\
    findCard "m" (cards (gameState w1)) = Some (mkCard "m" "CHOC" true false) /\
    sampleStep w1 Timeout = Settled w2 /\
    timers w2 = [] /\
    selectedCards (gameState w2) = [] /\
    findCard "m" (cards (gameState w2)) = Some (mkCard "m" "CHOC" true false).
Proof.
  eexists. eexists.
  split; [vm_compute; reflexivity|].
  do 3 (split; [reflexivity|]).
  split; [vm_compute; reflexivity|].
  repeat split.
Qed.

(** C2, as stated, fails: after the fifteenth miss the game is lost while
    the flip-back timer is pending; when it fires, the cards, the selection
    and [isChecking] of the lost session change. *)
Lemma reversion_changes_lost_session :
  exists w w' : World nat,
    samplePlay (fourteenMisses ++ [Click "a"; Click "c"]) = Settled w /\
    gameStatus (gameState w) = lost /\
    sampleStep w Timeout = Settled w' /\
    cards (gameState w') <> cards (gameState w) /\
    selectedCards (gameState w') <> selectedCards (gameState w) /\
    isChecking (gameState w') <> isChecking (gameState w).
Proof.
  eexists. eexists.
  split; [vm_compute; reflexivity|].
  split; [reflexivity|].
  split; [vm_compute; reflexivity|].
  repeat split; simpl; discriminate.
Qed.

(** C3, as stated, fails: the click that completes the fifteenth miss
    settles with the status [lost] while the reversion has not run yet: the
    timer is pending, both cards are face up and selected, and [isChecking]
    is set. *)
Lemma lost_while_reversion_pending :
  exists w0 w : World nat,
    samplePlay (fourteenMisses ++ [Click "a"]) = Settled w0 /\
    attempts (gameState w0) = 14 /\
    gameStatus (gameState w0) = playing /\
    sampleStep w0 (Click "c") = Settled w /\
    attempts (gameState w) = 15 /\
    gameStatus (gameState w) = lost /\
    timers w = [("a", "c")] /\
    selectedCards (gameState w) = ["a"; "c"] /\
    isChecking (gameState w) = true /\
    findCard "a" (cards (gameState w)) = Some (mkCard "a" "CHOC" true false) /\
    findCard "c" (cards (gameState w)) = Some (mkCard "c" "VANI" true false).
Proof.
  eexists. eexists.
  split; [vm_compute; reflexivity|].
  do 2 (split; [reflexivity|]).
  split; [vm_compute; reflexivity|].
  repeat split.
Qed.

(** C4, as stated, fails: in the freshly mounted hook a click on the
    identifier "z", which no card has, throws. *)
Lemma unknown_id_throws :
  exists w : World nat,
    samplePlay [] = Settled w /\
    ~ In "z" (map id (cards (gameState w))) /\
    handleCardClick (gameState w) "z" = TypeError.
Proof.
  eexists. split; [vm_compute; reflexivity|]. split; [|reflexivity].
  simpl. intros H.
  repeat (destruct H as [H | H]; [discriminate H|]). exact H.
Qed.

Lemma lost_precedes_reversion_witness :
  let w := sampleWorld (fourteenMisses ++ [Click "a"]) in
  let ca := mkCard "a" "CHOC" true false in
  let cb := mkCard "c" "VANI" false false in
  (gameStatus (gameState w) = playing /\
   isChecking (gameState w) = false /\
   selectedCards (gameState w) = ["a"] /\
   timers w = [] /\
   attempts (gameState w) + 1 = MAX_ATTEMPTS /\
   findCard "a" (cards (gameState w)) = Some ca /\
   findCard "c" (cards (gameState w)) = Some cb /\
   isFlipped cb = false /\
   isMatched cb = false /\
   flavour ca <> flavour cb) /\
  exists w1 w2 : World nat,
    sampleStep w (Click "c") = Settled w1 /\
    gameStatus (gameState w1) = lost /\
    attempts (gameState w1) = MAX_ATTEMPTS /\
    cards (gameState w1) = map (flipOne "c") (cards (gameState w)) /\
    selectedCards (gameState w1) = ["a"; "c"] /\
    isChecking (gameState w1) = true /\
    timers w1 = [("a", "c")] /\
    sampleStep w1 Timeout = Settled w2 /\
    gameStatus (gameState w2) = lost /\
    cards (gameState w2) = map (unflipTwo "a" "c") (cards (gameState w1)) /\
    selectedCards (gameState w2) = [] /\
    isChecking (gameState w2) = false /\
    timers w2 = [].
Proof.
  intros w ca cb.
  assert (Hyps :
    gameStatus (gameState w) = playing /\
    isChecking (gameState w) = false /\
    selectedCards (gameState w) = ["a"] /\
    timers w = [] /\
    attempts (gameState w) + 1 = MAX_ATTEMPTS /\
    findCard "a" (cards (gameState w)) = Some ca /\
    findCard "c" (cards (gameState w)) = Some cb /\
    isFlipped cb = false /\
    isMatched cb = false /\
    flavour ca <> flavour cb).
  { repeat split; try (vm_compute; reflexivity). vm_compute. discriminate. }
  split; [exact Hyps|].
  destruct Hyps as (h1 & h2 & h3 & h4 & h5 & h6 & h7 & h8 & h9 & h10).
  exact (lost_precedes_reversion nat sampleGenerateId sampleShuffle
           sampleFlavours w "a" "c" ca cb h1 h2 h3 h4 h5 h6 h7 h8 h9 h10).
Defined.

Lemma game_over_freezes_all_but_reversion_witness :
  let w := sampleWorld (fourteenMisses ++ [Click "a"; Click "c"]) in
  gameStatus (gameState w) <> playing /\
  ((forall cardId, sampleStep w (Click cardId) = Settled w) /\
   (timers w = [] -> sampleStep w Timeout = Settled w) /\
   (forall a b rest, timers w = (a, b) :: rest ->
      exists w',
        sampleStep w Timeout = Settled w' /\
        attempts (gameState w') = attempts (gameState w) /\
        gameStatus (gameState w') = gameStatus (gameState w) /\
        map id (cards (gameState w')) = map id (cards (gameState w)) /\
        map flavour (cards (gameState w')) =
          map flavour (cards (gameState w)) /\
        map isMatched (cards (gameState w')) =
          map isMatched (cards (gameState w)) /\
        cards (gameState w') = map (unflipTwo a b) (cards (gameState w)) /\
        selectedCards (gameState w') = [] /\
        isChecking (gameState w') = false /\
        timers w' = rest)).
Proof.
  intros w.
  assert (Hyp : gameStatus (gameState w) <> playing)
    by (vm_compute; discriminate).
  split; [exact Hyp|].
  exact (game_over_freezes_all_but_reversion nat sampleGenerateId
           sampleShuffle sampleFlavours w Hyp).
Defined.

Lemma selectCard_unknown_id_witness :
  let w := sampleWorld [] in
  ~ In "z" (map id (cards (gameState w))) /\
  (sampleStep w (Click "z") = Settled w /\
   (isChecking (gameState w) = true \/
    2 <= length (selectedCards (gameState w)) \/
    gameStatus (gameState w) <> playing ->
    handleCardClick (gameState w) "z" = Return []) /\
   (isChecking (gameState w) = false ->
    length (selectedCards (gameState w)) < 2 ->
    gameStatus (gameState w) = playing ->
    handleCardClick (gameState w) "z" = TypeError)).
Proof.
  intros w.
  assert (Hyp : ~ In "z" (map id (cards (gameState w)))).
  { vm_compute. intros H.
    repeat (destruct H as [H | H]; [discriminate H|]). exact H. }
  split; [exact Hyp|].
  exact (selectCard_unknown_id nat sampleGenerateId sampleShuffle
           sampleFlavours w "z" Hyp).
Defined.

Lemma selectCard_guarded_is_noop_witness :
  let w := sampleWorld [Click "a"] in
  let card := mkCard "a" "CHOC" true false in
  (findCard "a" (cards (gameState w)) = Some card /\
   (isFlipped card = true \/ isMatched card = true \/
    isChecking (gameState w) = true \/
    2 <= length (selectedCards (gameState w)) \/
    gameStatus (gameState w) <> playing)) /\
  (handleCardClick (gameState w) "a" = Return [] /\
   sampleStep w (Click "a") = Settled w).
Proof.
  intros w card.
  assert (H1 : findCard "a" (cards (gameState w)) = Some card)
    by (vm_compute; reflexivity).
  assert (H2 : isFlipped card = true \/ isMatched card = true \/
               isChecking (gameState w) = true \/
               2 <= length (selectedCards (gameState w)) \/
               gameStatus (gameState w) <> playing)
    by (left; reflexivity).
  split; [split; [exact H1 | exact H2]|].
  exact (selectCard_guarded_is_noop nat sampleGenerateId sampleShuffle
           sampleFlavours w "a" card H1 H2).
Defined.

(** The render after the last pair ("k", "l") was found on the fifteenth
    attempt. *)
Lemma win_checked_before_loss_witness :
  let w0 := sampleWorld beforeLastPair in
  let w := mkWorld (applyUpdate (FlipCard "l") (gameState w0))
             (timers w0) (rand w0) in
  let queue := [BeginCheck; MarkMatched "k" "l"] in
  let gs := applyQueue queue (gameState w) in
  (endDepsChanged (gameState w) gs queue = true /\
   gameStatus gs = playing /\
   forallb isMatched (cards gs) = true /\
   attempts gs = MAX_ATTEMPTS /\
   length (selectedCards gs) <> 2) /\
  (endConditionEffect gs = [SetStatus won] /\
   settle nat NESTED_UPDATE_LIMIT w queue =
   Settled {| gameState :=
                {| cards := cards gs;
                   selectedCards := selectedCards gs;
                   attempts := attempts gs;
                   gameStatus := won;
                   isChecking := isChecking gs |};
              timers := timers w;
              rand := rand w |}).
Proof.
  intros w0 w queue gs.
  assert (H1 : endDepsChanged (gameState w) gs queue = true)
    by (vm_compute; reflexivity).
  assert (H2 : gameStatus gs = playing) by (vm_compute; reflexivity).
  assert (H3 : forallb isMatched (cards gs) = true)
    by (vm_compute; reflexivity).
  assert (H4 : attempts gs = MAX_ATTEMPTS) by (vm_compute; reflexivity).
  assert (H5 : length (selectedCards gs) <> 2)
    by (vm_compute; discriminate).
  split; [repeat split; assumption|].
  exact (win_checked_before_loss nat w queue H1 H2 H3 H4 H5).
Defined.

Lemma match_evaluation_equal_flavours_witness :
  let w := sampleWorld [Click "a"] in
  let ca := mkCard "a" "CHOC" true false in
  let cb := mkCard "b" "CHOC" false false in
  (gameStatus (gameState w) = playing /\
   isChecking (gameState w) = false /\
   selectedCards (gameState w) = ["a"] /\
   attempts (gameState w) < MAX_ATTEMPTS /\
   findCard "a" (cards (gameState w)) = Some ca /\
   findCard "b" (cards (gameState w)) = Some cb /\
   isFlipped cb = false /\
   isMatched cb = false /\
   flavour ca = flavour cb) /\
  exists (w' : World nat) (ca' cb' : Card),
    sampleStep w (Click "b") = Settled w' /\
    cards (gameState w') =
      map (matchTwo "a" "b") (map (flipOne "b") (cards (gameState w))) /\
    findCard "a" (cards (gameState w')) = Some ca' /\ isMatched ca' = true /\
    findCard "b" (cards (gameState w')) = Some cb' /\ isMatched cb' = true /\
    timers w' = timers w /\
    attempts (gameState w') = attempts (gameState w) + 1 /\
    selectedCards (gameState w') = [] /\
    isChecking (gameState w') = false /\
    (gameStatus (gameState w') = won <->
     forall c, In c (cards (gameState w')) -> isMatched c = true).
Proof.
  intros w ca cb.
  assert (Hyps :
    gameStatus (gameState w) = playing /\
    isChecking (gameState w) = false /\
    selectedCards (gameState w) = ["a"] /\
    attempts (gameState w) < MAX_ATTEMPTS /\
    findCard "a" (cards (gameState w)) = Some ca /\
    findCard "b" (cards (gameState w)) = Some cb /\
    isFlipped cb = false /\
    isMatched cb = false /\
    flavour ca = flavour cb).
  { repeat split; try (vm_compute; reflexivity). vm_compute. lia. }
  split; [exact Hyps|].
  destruct Hyps as (h1 & h2 & h3 & h4 & h5 & h6 & h7 & h8 & h9).
  exact (match_evaluation_equal_flavours nat sampleGenerateId sampleShuffle
           sampleFlavours w "a" "b" ca cb h1 h2 h3 h4 h5 h6 h7 h8 h9).
Defined.

Lemma cards_keep_identity_and_order_witness :
  let w := sampleWorld [Click "a"] in
  (Click "c" <> Restart /\ selectedFound (gameState w) = true) /\
  exists w',
    sampleStep w (Click "c") = Settled w' /\
    length (cards (gameState w')) = length (cards (gameState w)) /\
    map id (cards (gameState w')) = map id (cards (gameState w)) /\
    map flavour (cards (gameState w')) = map flavour (cards (gameState w)).
Proof.
  intros w.
  assert (H1 : Click "c" <> Restart) by discriminate.
  assert (H2 : selectedFound (gameState w) = true)
    by (vm_compute; reflexivity).
  split; [split; [exact H1 | exact H2]|].
  exact (cards_keep_identity_and_order nat sampleGenerateId sampleShuffle
           sampleFlavours w (Click "c") H1 H2).
Defined.

Lemma initialize_and_restart_fresh_witness :
  ((forall cs r, Permutation cs (fst (sampleShuffle cs r))) /\
   length sampleFlavours = 6 /\
   NoDup (map snd sampleFlavours)) /\
  ((forall r,
       FreshSession sampleFlavours
         (fst (initializeGame nat sampleGenerateId sampleShuffle
                 sampleFlavours r))) /\
   (forall r, exists w,
       mount nat sampleGenerateId sampleShuffle sampleFlavours r = Settled w /\
       gameState w =
         fst (initializeGame nat sampleGenerateId sampleShuffle
                sampleFlavours r) /\
       FreshSession sampleFlavours (gameState w)) /\
   (forall w, exists w',
       sampleStep w Restart = Settled w' /\
       gameState w' =
         fst (initializeGame nat sampleGenerateId sampleShuffle
                sampleFlavours (rand w)) /\
       FreshSession sampleFlavours (gameState w'))).
Proof.
  assert (H1 : forall cs r, Permutation cs (fst (sampleShuffle cs r)))
    by (intros cs r; apply Permutation_rev).
  assert (H2 : length sampleFlavours = 6) by reflexivity.
  assert (H3 : NoDup (map snd sampleFlavours)).
  { simpl. repeat constructor; simpl; intros H;
      repeat (destruct H as [H | H]; [discriminate H|]); exact H. }
  split; [repeat split; assumption|].
  exact (initialize_and_restart_fresh nat sampleGenerateId sampleShuffle
           sampleFlavours H1 H2 H3).
Defined.

(** The same defect on the path the interface offers: the fifteenth miss
    ends the game at once, the dialog offers the restart while the timer of
    that miss is still pending, and the timer then empties the selection of
    the new session. *)
Lemma restart_after_loss_keeps_pending_reversion :
  exists w1 w2 : World nat,
    samplePlay (fourteenMisses ++ [Click "a"; Click "c"; Restart; Click "m"])
      = Settled w1 /\
    gameStatus (gameState w1) = playing /\
    attempts (gameState w1) = 0 /\
    timers w1 = [("a", "c")] /\
    selectedCards (gameState w1) = ["m"] /\
    sampleStep w1 Timeout = Settled w2 /\
    selectedCards (gameState w2) = [] /\
    findCard "m" (cards (gameState w2)) = Some (mkCard "m" "CHOC" true false).
Proof.
  eexists. eexists.
  split; [vm_compute; reflexivity|].
  do 4 (split; [reflexivity|]).
  split; [vm_compute; reflexivity|].
  repeat split.
Qed.

(** ** The further properties at concrete inputs *)

Lemma checking_ends_with_the_timer_witness :
  let es := [Click "a"; Click "c"] in
  let w := sampleWorld es in
  (samplePlay es = Settled w /\ isChecking (gameState w) = true) /\
  exists a b rest w',
    timers w = (a, b) :: rest /\
    sampleStep w Timeout = Settled w' /\
    isChecking (gameState w') = false /\
    selectedCards (gameState w') = [] /\
    attempts (gameState w') = attempts (gameState w) /\
    gameStatus (gameState w') = gameStatus (gameState w) /\
    timers w' = rest.
Proof.
  intros es w.
  assert (H1 : samplePlay es = Settled w) by (vm_compute; reflexivity).
  assert (H2 : isChecking (gameState w) = true) by (vm_compute; reflexivity).
  split; [split; [exact H1 | exact H2]|].
  exact (checking_ends_with_the_timer nat sampleGenerateId sampleShuffle
           sampleFlavours 0 es w H1 H2).
Defined.


Lemma miss_restores_the_board_witness :
  let w := sampleWorld [] in
  let ca := mkCard "a" "CHOC" false false in
  let cb := mkCard "c" "VANI" false false in
  (samplePlay [] = Settled w /\
   gameStatus (gameState w) = playing /\
   isChecking (gameState w) = false /\
   selectedCards (gameState w) = [] /\
   timers w = [] /\
   NoDup (map id (cards (gameState w))) /\
   findCard "a" (cards (gameState w)) = Some ca /\
   findCard "c" (cards (gameState w)) = Some cb /\
   isFlipped ca = false /\ isMatched ca = false /\
   isFlipped cb = false /\ isMatched cb = false /\
   flavour ca <> flavour cb) /\
  run nat sampleGenerateId sampleShuffle sampleFlavours w
    [Click "a"; Click "c"; Timeout] =
  Settled {| gameState :=
               {| cards := cards (gameState w);
                  selectedCards := [];
                  attempts := attempts (gameState w) + 1;
                  gameStatus :=
                    if (MAX_ATTEMPTS <=? attempts (gameState w) + 1)%nat
                    then lost else playing;
                  isChecking := false |};
             timers := [];
             rand := rand w |}.
Proof.
  intros w ca cb.
  assert (Hnd : NoDup (map id (cards (gameState w)))).
  { vm_compute. repeat constructor; simpl; intros H;
      repeat (destruct H as [H | H]; [discriminate H|]); exact H. }
  assert (Hyps :
    samplePlay [] = Settled w /\
    gameStatus (gameState w) = playing /\
    isChecking (gameState w) = false /\
    selectedCards (gameState w) = [] /\
    timers w = [] /\
    NoDup (map id (cards (gameState w))) /\
    findCard "a" (cards (gameState w)) = Some ca /\
    findCard "c" (cards (gameState w)) = Some cb /\
    isFlipped ca = false /\ isMatched ca = false /\
    isFlipped cb = false /\ isMatched cb = false /\
    flavour ca <> flavour cb).
  { do 5 (split; [vm_compute; reflexivity|]). split; [exact Hnd|].
    do 6 (split; [vm_compute; reflexivity|]). vm_compute. discriminate. }
  split; [exact Hyps|].
  destruct Hyps as (h1 & h2 & h3 & h4 & h5 & h6 & h7 & h8 & h9 & h10 &
                    h11 & h12 & h13).
  exact (miss_restores_the_board nat sampleGenerateId sampleShuffle
           sampleFlavours 0 [] w "a" "c" ca cb
           h1 h2 h3 h4 h5 h6 h7 h8 h9 h10 h11 h12 h13).
Defined.

Lemma matched_cards_stay_matched_witness :
  let w := sampleWorld [Click "a"; Click "b"; Click "c"] in
  (Click "e" <> Restart /\ selectedFound (gameState w) = true) /\
  exists w',
    sampleStep w (Click "e") = Settled w' /\
    Forall2 staysMatched (cards (gameState w)) (cards (gameState w')).
Proof.
  intros w.
  assert (H1 : Click "e" <> Restart) by discriminate.
  assert (H2 : selectedFound (gameState w) = true)
    by (vm_compute; reflexivity).
  split; [split; [exact H1 | exact H2]|].
  exact (matched_cards_stay_matched nat sampleGenerateId sampleShuffle
           sampleFlavours w (Click "e") H1 H2).
Defined.

Lemma clicks_never_turn_cards_down_witness :
  let w := sampleWorld [Click "a"] in
  selectedFound (gameState w) = true /\
  exists w',
    sampleStep w (Click "c") = Settled w' /\
    Forall2 staysFaceUp (cards (gameState w)) (cards (gameState w')).
Proof.
  intros w.
  assert (H : selectedFound (gameState w) = true)
    by (vm_compute; reflexivity).
  split; [exact H|].
  exact (clicks_never_turn_cards_down nat sampleGenerateId sampleShuffle
           sampleFlavours w "c" H).
Defined.

Lemma one_timer_without_restart_witness :
  let es := [Click "a"; Click "c"] in
  Forall (fun e => e <> Restart) es /\
  exists w,
    samplePlay es = Settled w /\
    length (timers w) <= 1 /\
    (timers w <> [] <-> isChecking (gameState w) = true) /\
    (forall a b, In (a, b) (timers w) ->
                 selectedCards (gameState w) = [a; b]).
Proof.
  intros es.
  assert (H : Forall (fun e => e <> Restart) es)
    by (repeat constructor; discriminate).
  split; [exact H|].
  exact (one_timer_without_restart nat sampleGenerateId sampleShuffle
           sampleFlavours 0 es H).
Defined.

Lemma board_clicks_never_throw_witness :
  let gs := gameState (sampleWorld []) in
  let props := cardProps playing (mkCard "a" "CHOC" false false) in
  (In (CardHandleClick props) (handlers (App gs)) /\
   fst (handleClick false props) = Some "a") /\
  (gameStatus gs = playing /\
   In "a" (map id (cards gs)) /\
   handleCardClick gs "a" <> TypeError /\
   (NoDup (map id (cards gs)) ->
    isChecking gs = false ->
    length (selectedCards gs) < 2 ->
    handleCardClick gs "a" = Return (flipCard "a"))).
Proof.
  intros gs props.
  assert (H1 : In (CardHandleClick props) (handlers (App gs))).
  { vm_compute. do 11 right. left. reflexivity. }
  assert (H2 : fst (handleClick false props) = Some "a") by reflexivity.
  split; [split; [exact H1 | exact H2]|].
  exact (board_clicks_never_throw gs props false "a" H1 H2).
Defined.

Lemma matches_are_paid_for_witness :
  let w := sampleWorld [] in
  let es := [Click "a"; Click "b"; Click "c"; Click "e"; Timeout] in
  (samplePlay [] = Settled w /\
   NoDup (map id (cards (gameState w))) /\
   Forall (fun e => e <> Restart) es) /\
  exists w',
    run nat sampleGenerateId sampleShuffle sampleFlavours w es = Settled w' /\
    matchedCount (gameState w') + 2 * attempts (gameState w)
      <= matchedCount (gameState w) + 2 * attempts (gameState w') /\
    (matchedCount (gameState w) = 0 -> attempts (gameState w) = 0 ->
     matchedCount (gameState w') <= 2 * attempts (gameState w')).
Proof.
  intros w es.
  assert (H1 : samplePlay [] = Settled w) by (vm_compute; reflexivity).
  assert (H2 : NoDup (map id (cards (gameState w)))).
  { vm_compute. repeat constructor; simpl; intros H;
      repeat (destruct H as [H | H]; [discriminate H|]); exact H. }
  assert (H3 : Forall (fun e => e <> Restart) es)
    by (repeat constructor; discriminate).
  split; [split; [exact H1 | split; [exact H2 | exact H3]]|].
  exact (matches_are_paid_for nat sampleGenerateId sampleShuffle
           sampleFlavours 0 [] es w H1 H2 H3).
Defined.

Lemma mount_status_witness :
  (forall cs r', Permutation cs (fst (sampleShuffle cs r'))) /\
  exists w,
    mount nat sampleGenerateId sampleShuffle [] 0 = Settled w /\
    attempts (gameState w) = 0 /\
    selectedCards (gameState w) = [] /\
    timers w = [] /\
    length (cards (gameState w)) = 2 * length (@nil (string * string)) /\
    (gameStatus (gameState w) = won <-> @nil (string * string) = []) /\
    (gameStatus (gameState w) = playing <-> @nil (string * string) <> []).
Proof.
  assert (H : forall cs r', Permutation cs (fst (sampleShuffle cs r')))
    by (intros cs r'; apply Permutation_rev).
  split; [exact H|].
  exact (mount_status nat sampleGenerateId sampleShuffle [] 0 H).
Defined.
